(** * Storefront pages: order price breakdown, login guard, submit validation

    A shallow embedding of the logic of three React pages:

    - [Orders.calculatePriceInfo] (Orders page, price breakdown of one order)
      and the effect that loads the orders;
    - the rate-limit and countdown effects of the Login page together with
      its [handleSubmit] and [validateForm];
    - [validateForm] and [handleSubmit] of the Signup page.

    Conventions of the embedding.

    - A JavaScript number that carries an amount or a quantity is a
      binary64 floating point number, Rocq's primitive [float]: its
      operations are the IEEE 754 ones of JavaScript, with rounding to
      nearest even, signed zeros, infinities and NaN.  The counters of the
      Login page only ever hold small integers and are [Z].
    - A JavaScript string is the list of its UTF-16 code units.
    - A component is a record of its [useState] cells; a handler is a
      function on that record, or a computation in a small monad where it
      reads the ambient context.  Calls to the backend are appended to a
      log carried by the state, so that "no network call" is a statement
      about that log.
    - An [async] handler is run to completion in one step; the reply of the
      backend is an argument of the handler.  The pages disable their
      inputs and their submit button while a submission is pending, so no
      other event of the page arrives between the call and its reply. *)

From Stdlib Require Import ZArith QArith List String Ascii Bool Lia Lqa.
From Stdlib Require Import DecimalString Floats Uint63 Qpower.
Import ListNotations.

Set Implicit Arguments.

(** ** The Orders page *)

Module Orders.

Local Open Scope float_scope.

Record OrderItem := mkItem {
  quantity : float;
  price : float
}.

Record Order := mkOrder {
  totalAmount : float;
  paymentMethod : string;
  items : list OrderItem
}.

(** The object returned by [calculatePriceInfo], with the field order of the
    source. *)
Record PriceInfo := mkPriceInfo {
  originalPrice : float;
  discount : float;
  discountPercentage : float;
  subtotal : float;
  shipping : float;
  totalItems : float
}.

(** What the component closes over: its own cells and the value it takes
    from the cart context. *)
Record Env := mkEnv {
  orders : list Order;
  loading : bool;
  error : option string;
  expandedOrder : option string;
  extraCharge : float
}.

(** A run of a computation of the component: its value, the context it
    leaves, and the divisions it has evaluated, each with its dividend and
    its divisor, in the order of evaluation. *)
Record Run (A : Type) := mkRun {
  value : A;
  context : Env;
  divisions : list (float * float)
}.

Definition Comp (A : Type) : Type := Env -> Run A.

Definition ret {A} (a : A) : Comp A := fun e => mkRun a e [].

Definition bind {A B} (c : Comp A) (k : A -> Comp B) : Comp B :=
  fun e =>
    let r := c e in
    let r' := k (value r) (context r) in
    mkRun (value r') (context r') (divisions r ++ divisions r').

Notation "x <- c ;; k" := (bind c (fun x => k))
  (at level 61, c at next level, right associativity).

Definition read_extraCharge : Comp float :=
  fun e => mkRun (extraCharge e) e [].

(** [x / y]: the IEEE quotient; a division by zero or of two infinities
    gives an infinity or NaN, never an error.  The division is recorded. *)
Definition js_div (x y : float) : Comp float :=
  fun e => mkRun (x / y) e [(x, y)].

(** [x > y]. *)
Definition gtb (x y : float) : bool := y <? x.

(** The float of an integer below 2^63 in absolute value. *)
Definition float_of_Z (n : Z) : float :=
  match n with
  | Z0 => 0
  | Zpos _ => of_uint63 (Uint63.of_Z n)
  | Zneg _ => - of_uint63 (Uint63.of_Z (- n))
  end.

(** [Math.round]: the integer closest to [x], a tie going towards plus
    infinity; NaN, the infinities, the zeros and the numbers that are
    integers already are returned as they are, and a result of zero has the
    sign of [x].  A number [m * 2^e] with [e < 0] is rounded exactly, as
    the floor of [m / 2^(-e) + 1/2]. *)
Definition Math_round (x : float) : float :=
  match Prim2SF x with
  | S754_finite s m e =>
      if (0 <=? e)%Z then x
      else
        let v := if s then Zneg m else Zpos m in
        let n := ((2 * v + 2 ^ (- e)) / 2 ^ (1 - e))%Z in
        if (n =? 0)%Z then (if s then neg_zero else zero)
        else float_of_Z n
  | _ => x
  end.

(** [Array.prototype.reduce] with an initial value. *)
Definition reduce {A B} (f : B -> A -> B) (init : B) (l : list A) : B :=
  fold_left f l init.

Definition calculatePriceInfo (order : Order) : Comp PriceInfo :=
  let shipping :=
    if String.eqb (paymentMethod order) "COD"%string then 50 else 0 in
  let subtotal := totalAmount order - shipping in
  let totalItems := reduce (fun sum item => sum + quantity item) 0 (items order) in
  extraCharge <- read_extraCharge ;;
  let discount := extraCharge * totalItems in
  let originalPrice := subtotal + discount in
  discountPercentage <-
    (if gtb originalPrice 0
     then r <- js_div discount originalPrice ;; ret (Math_round (r * 100))
     else ret 0) ;;
  ret {| originalPrice := originalPrice;
         discount := discount;
         discountPercentage := discountPercentage;
         subtotal := subtotal;
         shipping := shipping;
         totalItems := totalItems |}.

(** The sum of the quantities as the specification words it: starting from
    zero, the quantities are added one after the other in the order of the
    list. *)
Fixpoint sum_quantity_from (acc : float) (l : list OrderItem) : float :=
  match l with
  | [] => acc
  | item :: rest => sum_quantity_from (acc + quantity item) rest
  end.

Definition sum_quantity (l : list OrderItem) : float :=
  sum_quantity_from 0 l.

End Orders.

(** ** Strings and regular expressions of JavaScript *)

Module JS.

Local Open Scope N_scope.

(** A string is the sequence of its UTF-16 code units. *)
Definition jsstring : Type := list N.

(** A string literal of the source. *)
Definition lit (s : string) : jsstring :=
  map N_of_ascii (list_ascii_of_string s).

Definition str_eqb (s t : jsstring) : bool :=
  if list_eq_dec N.eq_dec s t then true else false.

(** [s.length]. *)
Definition str_length (s : jsstring) : Z := Z.of_nat (List.length s).

(** Truthiness of a string: the empty string is the one falsy string. *)
Definition truthy (s : jsstring) : bool :=
  match s with [] => false | _ :: _ => true end.

(** The code units matched by [\s], which are also the ones that
    [String.prototype.trim] strips: the WhiteSpace and LineTerminator
    productions of ECMAScript. *)
Definition isWhiteSpace (c : N) : bool :=
  (c =? 9) || (c =? 10) || (c =? 11) || (c =? 12) || (c =? 13) ||
  (c =? 32) || (c =? 160) || (c =? 5760) ||
  ((8192 <=? c) && (c <=? 8202)) ||
  (c =? 8232) || (c =? 8233) || (c =? 8239) || (c =? 8287) ||
  (c =? 12288) || (c =? 65279).

Fixpoint trimStart (s : jsstring) : jsstring :=
  match s with
  | [] => []
  | c :: rest => if isWhiteSpace c then trimStart rest else s
  end.

Definition trimEnd (s : jsstring) : jsstring := rev (trimStart (rev s)).

(** [s.trim()]. *)
Definition trim (s : jsstring) : jsstring := trimEnd (trimStart s).

Fixpoint startsWith (needle s : jsstring) : bool :=
  match needle, s with
  | [], _ => true
  | _ :: _, [] => false
  | a :: needle', b :: s' => (a =? b) && startsWith needle' s'
  end.

(** [s.includes(needle)]. *)
Fixpoint includes (needle s : jsstring) : bool :=
  startsWith needle s ||
  match s with
  | [] => false
  | _ :: s' => includes needle s'
  end.

(** Regular expressions, as far as the patterns of the two pages need
    them: character classes, concatenation, alternation, iteration. *)
Inductive regex : Type :=
| Void : regex
| Eps : regex
| Class : (N -> bool) -> regex
| Cat : regex -> regex -> regex
| Alt : regex -> regex -> regex
| Star : regex -> regex.

(** [r+]. *)
Definition Plus (r : regex) : regex := Cat r (Star r).

(** A single literal code unit. *)
Definition Chr (a : ascii) : regex := Class (fun c => c =? N_of_ascii a).

Fixpoint nullable (r : regex) : bool :=
  match r with
  | Void => false
  | Eps => true
  | Class _ => false
  | Cat r1 r2 => nullable r1 && nullable r2
  | Alt r1 r2 => nullable r1 || nullable r2
  | Star _ => true
  end.

(** The derivative of [r] by the code unit [c]: what is left to match once
    [c] has been read. *)
Fixpoint deriv (c : N) (r : regex) : regex :=
  match r with
  | Void => Void
  | Eps => Void
  | Class p => if p c then Eps else Void
  | Cat r1 r2 =>
      if nullable r1
      then Alt (Cat (deriv c r1) r2) (deriv c r2)
      else Cat (deriv c r1) r2
  | Alt r1 r2 => Alt (deriv c r1) (deriv c r2)
  | Star r1 => Cat (deriv c r1) (Star r1)
  end.

(** [/^r$/.test(s)]: the whole of [s] matches [r]. *)
Fixpoint test (r : regex) (s : jsstring) : bool :=
  match s with
  | [] => nullable r
  | c :: rest => test (deriv c r) rest
  end.

(** [[^\s@]]. *)
Definition notSpaceNorAt (c : N) : bool :=
  negb (isWhiteSpace c || (c =? N_of_ascii "@"%char)).

(** [/^[^\s@]+@[^\s@]+\.[^\s@]+$/], the pattern both pages call
    [emailRegex]. *)
Definition emailRegex : regex :=
  Cat (Plus (Class notSpaceNorAt))
      (Cat (Chr "@")
           (Cat (Plus (Class notSpaceNorAt))
                (Cat (Chr ".") (Plus (Class notSpaceNorAt))))).

(** [\d]. *)
Definition isDigit (c : N) : bool := (48 <=? c) && (c <=? 57).

(** [[\d\s\-+()]]. *)
Definition phoneChar (c : N) : bool :=
  isDigit c || isWhiteSpace c ||
  (c =? N_of_ascii "-"%char) || (c =? N_of_ascii "+"%char) ||
  (c =? N_of_ascii "("%char) || (c =? N_of_ascii ")"%char).

(** [/^[\d\s\-+()]+$/], [phoneRegex] of the Signup page. *)
Definition phoneRegex : regex := Plus (Class phoneChar).

End JS.

(** ** The Login page *)

Module Login.

Import JS.
Local Open Scope Z_scope.

(** *** The three cells of the attempt guard

    [loginAttempts], [isBlocked] and [blockTimer] are the cells the two
    effects of the page read and write.  They are kept in a record of their
    own so that the effects can be run on them alone. *)
Record Cells := mkCells {
  loginAttempts : Z;
  isBlocked : bool;
  blockTimer : Z
}.

Definition initialCells : Cells :=
  {| loginAttempts := 0; isBlocked := false; blockTimer := 0 |}.

(** A queued state update.  The setters take the updater function, as
    [setBlockTimer((prev) => prev - 1)] does; [setX(v)] is the constant
    updater. *)
Definition Update : Type := Cells -> Cells.

Definition setLoginAttempts (f : Z -> Z) : Update :=
  fun c => {| loginAttempts := f (loginAttempts c);
              isBlocked := isBlocked c;
              blockTimer := blockTimer c |}.

Definition setIsBlocked (b : bool) : Update :=
  fun c => {| loginAttempts := loginAttempts c;
              isBlocked := b;
              blockTimer := blockTimer c |}.

Definition setBlockTimer (f : Z -> Z) : Update :=
  fun c => {| loginAttempts := loginAttempts c;
              isBlocked := isBlocked c;
              blockTimer := f (blockTimer c) |}.

(** The queue is applied in the order in which the updates were issued. *)
Definition apply_updates (q : list Update) (c : Cells) : Cells :=
  fold_left (fun acc u => u acc) q c.

(** The effect commented "Handle rate limiting", dependency array
    [[loginAttempts]].  It reads the cells of the render it belongs to and
    queues its updates. *)
Definition rateLimitEffect (c : Cells) : list Update :=
  if 5 <=? loginAttempts c
  then [setIsBlocked true; setBlockTimer (fun _ => 300)]
  else [].

(** The effect commented "Block timer countdown", dependency array
    [[isBlocked, blockTimer]].  The first component tells whether the run
    has installed an interval. *)
Definition countdownEffect (c : Cells) : bool * list Update :=
  if isBlocked c && (0 <? blockTimer c)
  then (true, [])
  else if blockTimer c =? 0
       then (false, [setIsBlocked false; setLoginAttempts (fun _ => 0)])
       else (false, []).

(** The guard as React holds it: the current cells, the cells of the last
    committed render (what the dependency arrays are compared with), and
    whether the interval of the countdown effect is installed. *)
Record Guard := mkGuard {
  cells : Cells;
  deps : Cells;
  interval : bool
}.

(** One render and commit.  An effect runs when one of its dependencies
    differs from the previous render; when the countdown effect runs, its
    previous cleanup has cleared the old interval, so the interval is the
    one of this run. *)
Definition commit (g : Guard) : Guard :=
  let c := cells g in
  let d := deps g in
  let runRateLimit := negb (loginAttempts d =? loginAttempts c) in
  let runCountdown :=
    negb (Bool.eqb (isBlocked d) (isBlocked c)) ||
    negb (blockTimer d =? blockTimer c) in
  let q1 := if runRateLimit then rateLimitEffect c else [] in
  let '(iv, q2) :=
    if runCountdown then countdownEffect c else (interval g, []) in
  {| cells := apply_updates (q1 ++ q2) c; deps := c; interval := iv |}.

Fixpoint render_loop (n : nat) (g : Guard) : Guard :=
  match n with
  | O => g
  | S n' => render_loop n' (commit g)
  end.

(** React renders again as long as an effect has changed a cell.  Three
    commits always reach a state that a further commit leaves alone
    ([settle_quiescent] below), so the loop is cut there. *)
Definition settle (g : Guard) : Guard := render_loop 3 g.

(** The first render: both effects run, whatever the dependencies. *)
Definition mount : Guard :=
  let c := initialCells in
  let q1 := rateLimitEffect c in
  let '(iv, q2) := countdownEffect c in
  settle {| cells := apply_updates (q1 ++ q2) c; deps := c; interval := iv |}.

(** An update issued by a handler or by the timer, and the renders it
    causes. *)
Definition dispatch (u : Update) (g : Guard) : Guard :=
  settle {| cells := u (cells g); deps := deps g; interval := interval g |}.

(** The [catch] branch of [handleSubmit]:
    [setLoginAttempts((prev) => prev + 1)]. *)
Definition recordFailure (g : Guard) : Guard :=
  dispatch (setLoginAttempts (fun prev => prev + 1)) g.

(** The line after [await login(...)]: [setLoginAttempts(0)]. *)
Definition recordSuccess (g : Guard) : Guard :=
  dispatch (setLoginAttempts (fun _ => 0)) g.

(** The callback of the interval, [setBlockTimer((prev) => prev - 1)].  It
    can only fire while an interval is installed. *)
Definition tick (g : Guard) : option Guard :=
  if interval g
  then Some (dispatch (setBlockTimer (fun prev => prev - 1)) g)
  else None.

(** [n] firings of the interval in a row. *)
Fixpoint ticks (n : nat) (g : Guard) : option Guard :=
  match n with
  | O => Some g
  | S n' => match tick g with
            | Some g' => ticks n' g'
            | None => None
            end
  end.

Fixpoint failures (n : nat) (g : Guard) : Guard :=
  match n with
  | O => g
  | S n' => failures n' (recordFailure g)
  end.

(** What the page shows of the guard. *)
Definition remaining (g : Guard) : Z := blockTimer (cells g).
Definition blocked (g : Guard) : bool := isBlocked (cells g).
Definition attemptCount (g : Guard) : Z := loginAttempts (cells g).

(** *** The form *)

Record FormData := mkFormData {
  email : jsstring;
  password : jsstring
}.

(** The [errors] object; an absent key and a key set to [undefined] are
    both [None]. *)
Record Errors := mkErrors {
  email_error : option string;
  password_error : option string;
  form_error : option string
}.

Definition noErrors : Errors :=
  {| email_error := None; password_error := None; form_error := None |}.

(** [Object.keys(newErrors).length === 0] for an object that
    [validateForm] has built: it only ever adds [email] and [password]. *)
Definition no_keys (e : Errors) : bool :=
  match email_error e, password_error e with
  | None, None => true
  | _, _ => false
  end.

(** The page: its cells, and the log of the calls of [login] made so
    far, each with its two arguments. *)
Record Page := mkPage {
  formData : FormData;
  errors : Errors;
  isSubmitting : bool;
  guard : Guard;
  calls : list (jsstring * jsstring)
}.

Definition setErrors (e : Errors) (p : Page) : Page :=
  {| formData := formData p; errors := e; isSubmitting := isSubmitting p;
     guard := guard p; calls := calls p |}.

Definition setIsSubmitting (b : bool) (p : Page) : Page :=
  {| formData := formData p; errors := errors p; isSubmitting := b;
     guard := guard p; calls := calls p |}.

Definition setFormData (f : FormData) (p : Page) : Page :=
  {| formData := f; errors := errors p; isSubmitting := isSubmitting p;
     guard := guard p; calls := calls p |}.

Definition onGuard (f : Guard -> Guard) (p : Page) : Page :=
  {| formData := formData p; errors := errors p;
     isSubmitting := isSubmitting p; guard := f (guard p);
     calls := calls p |}.

(** [login(email, password)] is called: the call is logged. *)
Definition call_login (e pw : jsstring) (p : Page) : Page :=
  {| formData := formData p; errors := errors p;
     isSubmitting := isSubmitting p; guard := guard p;
     calls := calls p ++ [(e, pw)] |}.

Definition initialPage : Page :=
  {| formData := {| email := []; password := [] |};
     errors := noErrors;
     isSubmitting := false;
     guard := mount;
     calls := [] |}.

(** [validateForm]: the errors it stores with [setErrors], and its
    result. *)
Definition validateForm (p : Page) : Errors * bool :=
  let f := formData p in
  let email_err :=
    if negb (truthy (trim (email f))) then Some "Email is required"%string
    else if negb (test emailRegex (email f))
         then Some "Invalid email format"%string
         else None in
  let password_err :=
    if negb (truthy (password f)) then Some "Password is required"%string
    else if str_length (password f) <? 6
         then Some "Password must be at least 6 characters"%string
         else None in
  let newErrors :=
    {| email_error := email_err; password_error := password_err;
       form_error := None |} in
  (newErrors, no_keys newErrors).

(** How the promise returned by [login] settles. *)
Inductive Reply : Type :=
| Resolved : Reply
| Rejected : jsstring -> Reply.   (* err.message *)

(** The message chosen in the [catch] branch. *)
Definition errorMessage (onLine : bool) (message : jsstring) : string :=
  if negb onLine
  then "No internet connection. Please check your network."
  else if str_eqb message (lit "User not found")
  then "No account found with this email."
  else if str_eqb message (lit "Invalid password")
  then "Incorrect password."
  else if includes (lit "Too many") message
  then "Too many login attempts. Please try again later."
  else "Failed to log in. Please check your credentials.".

(** [handleSubmit].  [reply] is the answer of the backend should [login] be
    called, [onLine] is [navigator.onLine] at the time of the answer. *)
Definition handleSubmit (reply : Reply) (onLine : bool) (p : Page) : Page :=
  if isBlocked (cells (guard p)) then p
  else
    let '(newErrors, ok) := validateForm p in
    let p := setErrors newErrors p in
    if negb ok then p
    else
      let p := setIsSubmitting true p in
      let p := setErrors noErrors p in
      let p := call_login (email (formData p)) (password (formData p)) p in
      let p :=
        match reply with
        | Resolved => onGuard recordSuccess p
        | Rejected message =>
            let p := onGuard recordFailure p in
            setErrors {| email_error := None; password_error := None;
                         form_error := Some (errorMessage onLine message) |} p
        end in
      setIsSubmitting false p.

(** The names of the two inputs. *)
Inductive Field : Type := Email | Password.

(** [handleChange]: the field is stored, and when it carried an error that
    error and the form error are cleared. *)
Definition handleChange (name : Field) (value : jsstring) (p : Page) : Page :=
  let f := formData p in
  let f' := match name with
            | Email => {| email := value; password := password f |}
            | Password => {| email := email f; password := value |}
            end in
  let e := errors p in
  let p := setFormData f' p in
  match name, email_error e, password_error e with
  | Email, Some _, _ =>
      setErrors {| email_error := None; password_error := password_error e;
                   form_error := None |} p
  | Password, _, Some _ =>
      setErrors {| email_error := email_error e; password_error := None;
                   form_error := None |} p
  | _, _, _ => p
  end.

(** The interval fires on the page. *)
Definition handleTick (p : Page) : option Page :=
  match tick (guard p) with
  | Some g => Some (onGuard (fun _ => g) p)
  | None => None
  end.

(** The pages the user can bring about: submissions with any reply,
    edits of the form, firings of the interval. *)
Inductive reachable : Page -> Prop :=
| reach_init : reachable initialPage
| reach_submit : forall reply onLine p,
    reachable p -> reachable (handleSubmit reply onLine p)
| reach_change : forall name value p,
    reachable p -> reachable (handleChange name value p)
| reach_tick : forall p p',
    reachable p -> handleTick p = Some p' -> reachable p'.

(** The invariant of the guard. *)
Definition guard_inv (c : Cells) : Prop :=
  0 <= loginAttempts c <= 5 /\
  0 <= blockTimer c /\
  (isBlocked c = true -> loginAttempts c = 5 /\ blockTimer c <= 300) /\
  (isBlocked c = false -> blockTimer c = 0).

(** The guard at rest with [k] failures counted and no lockout. *)
Definition active (k : Z) : Guard :=
  {| cells := {| loginAttempts := k; isBlocked := false; blockTimer := 0 |};
     deps := {| loginAttempts := k; isBlocked := false; blockTimer := 0 |};
     interval := false |}.

(** The guard at rest in a lockout with [t] seconds to go: the interval is
    installed. *)
Definition lockedFor (t : Z) : Guard :=
  {| cells := {| loginAttempts := 5; isBlocked := true; blockTimer := t |};
     deps := {| loginAttempts := 5; isBlocked := true; blockTimer := t |};
     interval := true |}.

(** The two shapes of the guard between two events. *)
Inductive at_rest : Guard -> Prop :=
| rest_active : forall k, 0 <= k <= 4 -> at_rest (active k)
| rest_locked : forall t, 1 <= t <= 300 -> at_rest (lockedFor t).

(** The checks of the form as the specification lists them. *)
Definition form_ok (p : Page) : Prop :=
  let f := formData p in
  email f <> [] /\ test emailRegex (email f) = true /\
  password f <> [] /\ 6 <= str_length (password f).

(** A page with a well-formed address and password typed in, and the same
    page after five submissions that the backend has rejected. *)
Definition filledPage : Page :=
  handleChange Password (lit "secret1")
    (handleChange Email (lit "a@b.co") initialPage).

Definition lockedOutPage : Page :=
  Nat.iter 5 (handleSubmit (Rejected (lit "Invalid password")) true)
    filledPage.

End Login.

(** ** The Signup page *)

Module Signup.

Import JS.
Local Open Scope Z_scope.

Record FormData := mkFormData {
  firstName : jsstring;
  lastName : jsstring;
  email : jsstring;
  password : jsstring;
  phone : jsstring
}.

Record PasswordStrength := mkStrength {
  score : Z;
  feedback : jsstring
}.

(** The [errors] object, one optional message per key. *)
Record Errors := mkErrors {
  firstName_error : option jsstring;
  lastName_error : option jsstring;
  email_error : option jsstring;
  password_error : option jsstring;
  phone_error : option jsstring;
  form_error : option jsstring
}.

Definition noErrors : Errors :=
  {| firstName_error := None; lastName_error := None; email_error := None;
     password_error := None; phone_error := None; form_error := None |}.

(** [Object.keys(newErrors).length === 0] for an object built by
    [validateForm], which never adds [form]. *)
Definition no_keys (e : Errors) : bool :=
  match firstName_error e, lastName_error e, email_error e,
        password_error e, phone_error e with
  | None, None, None, None, None => true
  | _, _, _, _, _ => false
  end.

(** What the page does to the outside: calls of [signup] with their five
    arguments, and [navigate(returnTo, { replace: true })]. *)
Inductive Effect : Type :=
| CallSignup : jsstring -> jsstring -> jsstring -> jsstring -> jsstring -> Effect
| Navigate : Effect.

Record Page := mkPage {
  formData : FormData;
  showPassword : bool;
  errors : Errors;
  isSubmitting : bool;
  passwordStrength : PasswordStrength;
  trace : list Effect
}.

Definition setErrors (e : Errors) (p : Page) : Page :=
  {| formData := formData p; showPassword := showPassword p; errors := e;
     isSubmitting := isSubmitting p;
     passwordStrength := passwordStrength p; trace := trace p |}.

Definition setIsSubmitting (b : bool) (p : Page) : Page :=
  {| formData := formData p; showPassword := showPassword p;
     errors := errors p; isSubmitting := b;
     passwordStrength := passwordStrength p; trace := trace p |}.

Definition setPasswordStrength (s : PasswordStrength) (p : Page) : Page :=
  {| formData := formData p; showPassword := showPassword p;
     errors := errors p; isSubmitting := isSubmitting p;
     passwordStrength := s; trace := trace p |}.

Definition emit (e : Effect) (p : Page) : Page :=
  {| formData := formData p; showPassword := showPassword p;
     errors := errors p; isSubmitting := isSubmitting p;
     passwordStrength := passwordStrength p; trace := trace p ++ [e] |}.

Definition isUpper (c : N) : bool := ((65 <=? c) && (c <=? 90))%N.
Definition isLower (c : N) : bool := ((97 <=? c) && (c <=? 122))%N.

(** [checkPasswordStrength], which the debounced effect calls with the
    password once it is not empty. *)
Definition checkPasswordStrength (pw : jsstring) (p : Page) : Page :=
  let s0 := 0 in
  let s1 := if 8 <=? str_length pw then s0 + 1 else s0 in
  let s2 := if existsb isUpper pw then s1 + 1 else s1 in
  let s3 := if existsb isLower pw then s2 + 1 else s2 in
  let s4 := if existsb isDigit pw then s3 + 1 else s3 in
  let s5 :=
    if existsb (fun c => negb (isUpper c || isLower c || isDigit c)) pw
    then s4 + 1 else s4 in
  let weak := s5 <? 3 in
  let short := str_length pw <? 8 in
  let fb :=
    match weak, short with
    | true, true =>
        lit "Add uppercase, numbers, or symbols" ++ lit ", " ++
        lit "Make it longer"
    | true, false => lit "Add uppercase, numbers, or symbols"
    | false, true => lit "Make it longer"
    | false, false => []
    end in
  setPasswordStrength {| score := s5; feedback := fb |} p.

(** [validateForm]: the errors it stores, and its result. *)
Definition validateForm (p : Page) : Errors * bool :=
  let f := formData p in
  let required := Some (lit "Required") in
  let newErrors :=
    {| firstName_error :=
         if negb (truthy (trim (firstName f))) then required else None;
       lastName_error :=
         if negb (truthy (trim (lastName f))) then required else None;
       email_error :=
         if negb (truthy (trim (email f))) then required
         else if negb (test emailRegex (email f))
              then Some (lit "Invalid email format")
              else None;
       password_error :=
         if negb (truthy (password f)) then required
         else if score (passwordStrength p) <? 3
              then Some (lit "Password not strong enough")
              else None;
       phone_error :=
         if negb (truthy (trim (phone f))) then required
         else if negb (test phoneRegex (phone f))
              then Some (lit "Invalid phone format")
              else None;
       form_error := None |} in
  (newErrors, no_keys newErrors).

(** How the promise returned by [signup] settles. *)
Inductive Reply : Type :=
| Resolved : Reply
| Rejected : jsstring -> Reply.   (* err.message *)

(** [handleSubmit].  [validateForm()] is the left operand of [||], so its
    [setErrors] happens whatever [isSubmitting] is. *)
Definition handleSubmit (reply : Reply) (p : Page) : Page :=
  let '(newErrors, ok) := validateForm p in
  let submitting := isSubmitting p in
  let p := setErrors newErrors p in
  if negb ok || submitting then p
  else
    let p := setIsSubmitting true p in
    let f := formData p in
    let p :=
      emit (CallSignup (firstName f) (lastName f) (email f) (password f)
                       (phone f)) p in
    let p :=
      match reply with
      | Resolved => emit Navigate p
      | Rejected message =>
          let text := if truthy message then message
                      else lit "Signup failed. Please try again." in
          setErrors {| firstName_error := None; lastName_error := None;
                       email_error := None; password_error := None;
                       phone_error := None; form_error := Some text |} p
      end in
    setIsSubmitting false p.

(** The page as first rendered. *)
Definition initialPage : Page :=
  {| formData := {| firstName := []; lastName := []; email := [];
                    password := []; phone := [] |};
     showPassword := false;
     errors := noErrors;
     isSubmitting := false;
     passwordStrength := {| score := 0; feedback := [] |};
     trace := [] |}.

(** The local checks of the form, spelled out. *)
Definition form_ok (p : Page) : Prop :=
  let f := formData p in
  trim (firstName f) <> [] /\
  trim (lastName f) <> [] /\
  trim (email f) <> [] /\ test emailRegex (email f) = true /\
  password f <> [] /\ 3 <= score (passwordStrength p) /\
  trim (phone f) <> [] /\ test phoneRegex (phone f) = true.

End Signup.

(** ** The Orders page: loading the orders *)

Module OrdersPage.

Import JS.

(** What the page does to the outside: the GET request with its path,
    [console.error], [logout()] of the auth context, and the rejection of
    the promise of [fetchOrders], which nothing handles. *)
Inductive Effect : Type :=
| ApiGet : jsstring -> Effect
| ConsoleError : Effect
| Logout : Effect
| Uncaught : Effect.

(** The cells of the page, with the trace of its effects. *)
Record Page := mkPage {
  orders : list Orders.Order;
  loading : bool;
  error : option jsstring;
  expandedOrder : option jsstring;
  trace : list Effect
}.

Definition initialPage : Page :=
  {| orders := []; loading := true; error := None; expandedOrder := None;
     trace := [] |}.

Definition setOrders (os : list Orders.Order) (p : Page) : Page :=
  {| orders := os; loading := loading p; error := error p;
     expandedOrder := expandedOrder p; trace := trace p |}.

Definition setLoading (b : bool) (p : Page) : Page :=
  {| orders := orders p; loading := b; error := error p;
     expandedOrder := expandedOrder p; trace := trace p |}.

Definition setError (e : option jsstring) (p : Page) : Page :=
  {| orders := orders p; loading := loading p; error := e;
     expandedOrder := expandedOrder p; trace := trace p |}.

Definition setExpandedOrder (x : option jsstring) (p : Page) : Page :=
  {| orders := orders p; loading := loading p; error := error p;
     expandedOrder := x; trace := trace p |}.

Definition emit (e : Effect) (p : Page) : Page :=
  {| orders := orders p; loading := loading p; error := error p;
     expandedOrder := expandedOrder p; trace := trace p ++ [e] |}.

(** How [apiCall] settles: a response with [success] set and its orders, a
    response without [success] and its message (empty when it has none),
    or a rejection.  Of the value a rejection carries the [catch] block
    reads [err.message] only: [Thrown (Some m)] is a rejection whose
    [message] is the string [m], as that of an [Error] is, and
    [Thrown None] one on which [err.message.includes] cannot be called
    ([null], [undefined], a value without [message]). *)
Inductive Reply : Type :=
| Fetched : list Orders.Order -> Reply
| Refused : jsstring -> Reply
| Thrown : option jsstring -> Reply.

(** [user?._id] is truthy. *)
Definition has_id (userId : option jsstring) : bool :=
  match userId with
  | Some id => truthy id
  | None => false
  end.

(** The [catch] branch for an error whose message is a string, with
    [err.message]. *)
Definition onError (message : jsstring) (p : Page) : Page :=
  let p := emit ConsoleError p in
  let p :=
    if includes (lit "token") message
    then emit Logout
           (setError (Some (lit "Session expired. Please login again.")) p)
    else setError (Some (if truthy message then message
                         else lit "Error connecting to server")) p in
  setOrders [] p.

(** The [catch] branch for a value without a message: the console line
    is written, then [err.message.includes] throws, and the rest of the
    branch is not run. *)
Definition onErrorWithoutMessage (p : Page) : Page :=
  emit ConsoleError p.

(** [fetchOrders], the body of the effect on [user?._id].  The [finally]
    block runs in every case; when the [catch] block has thrown, the
    promise of [fetchOrders] is rejected after it. *)
Definition fetchOrders (userId : option jsstring) (reply : Reply) (p : Page)
  : Page :=
  if negb (has_id userId)
  then setError (Some (lit "No user data available")) p
  else
    let id := match userId with Some id => id | None => [] end in
    let p := setLoading true p in
    let p := setError None p in
    let p := emit (ApiGet (lit "/api/v1/orders/" ++ id)) p in
    let p :=
      match reply with
      | Fetched os => setOrders os p
      | Refused message =>
          onError (if truthy message then message
                   else lit "Failed to fetch orders") p
      | Thrown (Some message) => onError message p
      | Thrown None => onErrorWithoutMessage p
      end in
    let p := setLoading false p in
    match reply with
    | Thrown None => emit Uncaught p
    | _ => p
    end.

End OrdersPage.

(** ** The Login page: the text of the countdown *)

Module LoginView.

Import JS.
Local Open Scope Z_scope.

(** [String(n)] for an integer [n]: its decimal digits, with a minus sign
    when it is negative. *)
Definition String_of (n : Z) : jsstring :=
  lit (NilZero.string_of_int (Z.to_int n)).

(** [s.padStart(targetLength, padString)]. *)
Definition padStart (targetLength : Z) (padString s : jsstring) : jsstring :=
  let fillLen := Z.to_nat (targetLength - str_length s) in
  match padString with
  | [] => s
  | _ :: _ => firstn fillLen (List.concat (repeat padString fillLen)) ++ s
  end.

(** [Math.floor(blockTimer / 60)]. *)
Definition minutesShown (blockTimer : Z) : Z := blockTimer / 60.

(** [String(blockTimer % 60).padStart(2, "0")]; the remainder of
    JavaScript has the sign of the dividend. *)
Definition secondsShown (blockTimer : Z) : jsstring :=
  padStart 2 (lit "0") (String_of (Z.rem blockTimer 60)).

(** The countdown of the banner, minutes, a colon, seconds. *)
Definition countdownText (blockTimer : Z) : jsstring :=
  String_of (minutesShown blockTimer) ++ lit ":" ++ secondsShown blockTimer.

(** Reading a run of decimal digits back, most significant first. *)
Definition digitValue (c : N) : option Z :=
  if isDigit c then Some (Z.of_N c - 48) else None.

Fixpoint readDigits (acc : Z) (s : jsstring) : option Z :=
  match s with
  | [] => Some acc
  | c :: rest =>
      match digitValue c with
      | Some d => readDigits (10 * acc + d) rest
      | None => None
      end
  end.

End LoginView.

(** ** The Signup page: edits, the strength timer, reachable pages *)

Module SignupEvents.

Import JS Signup.
Local Open Scope Z_scope.

(** The names of the five inputs. *)
Inductive Field : Type := FirstName | LastName | Email | Password | Phone.

Definition setFormData (f : FormData) (p : Page) : Page :=
  {| formData := f; showPassword := showPassword p; errors := errors p;
     isSubmitting := isSubmitting p;
     passwordStrength := passwordStrength p; trace := trace p |}.

Definition setShowPassword (b : bool) (p : Page) : Page :=
  {| formData := formData p; showPassword := b; errors := errors p;
     isSubmitting := isSubmitting p;
     passwordStrength := passwordStrength p; trace := trace p |}.

Definition setField (name : Field) (value : jsstring) (f : FormData)
  : FormData :=
  match name with
  | FirstName =>
      {| firstName := value; lastName := lastName f; email := email f;
         password := password f; phone := phone f |}
  | LastName =>
      {| firstName := firstName f; lastName := value; email := email f;
         password := password f; phone := phone f |}
  | Email =>
      {| firstName := firstName f; lastName := lastName f; email := value;
         password := password f; phone := phone f |}
  | Password =>
      {| firstName := firstName f; lastName := lastName f; email := email f;
         password := value; phone := phone f |}
  | Phone =>
      {| firstName := firstName f; lastName := lastName f; email := email f;
         password := password f; phone := value |}
  end.

(** [errors[name]]. *)
Definition getError (name : Field) (e : Errors) : option jsstring :=
  match name with
  | FirstName => firstName_error e
  | LastName => lastName_error e
  | Email => email_error e
  | Password => password_error e
  | Phone => phone_error e
  end.

(** [{ ...prev, [name]: v }]. *)
Definition setError (name : Field) (v : option jsstring) (e : Errors)
  : Errors :=
  match name with
  | FirstName =>
      {| firstName_error := v; lastName_error := lastName_error e;
         email_error := email_error e; password_error := password_error e;
         phone_error := phone_error e; form_error := form_error e |}
  | LastName =>
      {| firstName_error := firstName_error e; lastName_error := v;
         email_error := email_error e; password_error := password_error e;
         phone_error := phone_error e; form_error := form_error e |}
  | Email =>
      {| firstName_error := firstName_error e;
         lastName_error := lastName_error e; email_error := v;
         password_error := password_error e; phone_error := phone_error e;
         form_error := form_error e |}
  | Password =>
      {| firstName_error := firstName_error e;
         lastName_error := lastName_error e; email_error := email_error e;
         password_error := v; phone_error := phone_error e;
         form_error := form_error e |}
  | Phone =>
      {| firstName_error := firstName_error e;
         lastName_error := lastName_error e; email_error := email_error e;
         password_error := password_error e; phone_error := v;
         form_error := form_error e |}
  end.

(** [handleChange]: the field is stored; when it carried a message, the
    message becomes the empty string. *)
Definition handleChange (name : Field) (value : jsstring) (p : Page) : Page :=
  let e := errors p in
  let p := setFormData (setField name value (formData p)) p in
  match getError name e with
  | Some (_ :: _) => setErrors (setError name (Some []) e) p
  | _ => p
  end.

(** The callback of the debounce timer of the password:
    [if (formData.password) checkPasswordStrength(formData.password)]. *)
Definition strengthTimer (p : Page) : Page :=
  if truthy (password (formData p))
  then checkPasswordStrength (password (formData p)) p
  else p.

(** The button with the eye: [setShowPassword(!showPassword)]. *)
Definition toggleShowPassword (p : Page) : Page :=
  setShowPassword (negb (showPassword p)) p.

(** [getPasswordStrengthColor]. *)
Definition getPasswordStrengthColor (p : Page) : jsstring :=
  let score := score (passwordStrength p) in
  if score <? 2 then lit "bg-red-500"
  else if score <? 4 then lit "bg-yellow-500"
  else lit "bg-green-500".

(** The pages the user can bring about. *)
Inductive reachable : Page -> Prop :=
| reach_init : reachable initialPage
| reach_change : forall name value p,
    reachable p -> reachable (handleChange name value p)
| reach_timer : forall p, reachable p -> reachable (strengthTimer p)
| reach_toggle : forall p, reachable p -> reachable (toggleShowPassword p)
| reach_submit : forall reply p,
    reachable p -> reachable (handleSubmit reply p).

(** The fields of a request that [validateForm] has let through. *)
Definition wellFormed (e : Effect) : Prop :=
  match e with
  | CallSignup first last mail pw tel =>
      trim first <> [] /\ trim last <> [] /\
      test emailRegex mail = true /\ pw <> [] /\
      trim tel <> [] /\ test phoneRegex tel = true
  | Navigate => True
  end.

Definition isCall (e : Effect) : bool :=
  match e with CallSignup _ _ _ _ _ => true | Navigate => false end.

Definition isNavigate (e : Effect) : bool :=
  match e with CallSignup _ _ _ _ _ => false | Navigate => true end.

(** The four character classes that [checkPasswordStrength] looks for. *)
Definition classesUsed (pw : jsstring) : Z :=
  (if existsb isUpper pw then 1 else 0) +
  (if existsb isLower pw then 1 else 0) +
  (if existsb isDigit pw then 1 else 0) +
  (if existsb (fun c => negb (isUpper c || isLower c || isDigit c)) pw
   then 1 else 0).

End SignupEvents.

(** ** What a regular expression accepts *)

Module RegexSem.

Import JS.

(** The strings of a regular expression, the usual way. *)
Inductive matches : regex -> jsstring -> Prop :=
| m_eps : matches Eps []
| m_class : forall (p : N -> bool) c, p c = true -> matches (Class p) [c]
| m_cat : forall r1 r2 s1 s2,
    matches r1 s1 -> matches r2 s2 -> matches (Cat r1 r2) (s1 ++ s2)
| m_alt_l : forall r1 r2 s, matches r1 s -> matches (Alt r1 r2) s
| m_alt_r : forall r1 r2 s, matches r2 s -> matches (Alt r1 r2) s
| m_star_nil : forall r, matches (Star r) []
| m_star_cons : forall r s1 s2,
    matches r s1 -> matches (Star r) s2 -> matches (Star r) (s1 ++ s2).

(** The shape of an address: a local part, an at sign, a domain, a dot and
    an ending, none of them empty and none with white space or an at
    sign. *)
Definition addressShape (s : jsstring) : Prop :=
  exists a b c : jsstring,
    s = a ++ [N_of_ascii "@"%char] ++ b ++ [N_of_ascii "."%char] ++ c /\
    a <> [] /\ b <> [] /\ c <> [] /\
    forallb notSpaceNorAt a = true /\
    forallb notSpaceNorAt b = true /\
    forallb notSpaceNorAt c = true.

End RegexSem.

(** ** Binary64 numbers as rationals *)

Module Binary64.

(** The power of two of an integer exponent. *)
Definition bpow (e : Z) : Q := (2 ^ e)%Q.

(** The number with mantissa [m] and exponent [e]. *)
Definition Fv (m e : Z) : Q := (inject_Z m * bpow e)%Q.

(** The exact value of a number that is neither NaN nor infinite. *)
Definition SF2Q (x : spec_float) : Q :=
  match x with
  | S754_finite s m e => if s then Fv (Zneg m) e else Fv (Zpos m) e
  | _ => 0%Q
  end.

(** How [binary_round_aux] wraps up a mantissa of at most 53 bits to which
    the rounding may have added one: a mantissa that has reached [2^53] is
    halved, and an exponent above 971 gives an infinity. *)
Definition pack (sx : bool) (m e : Z) : spec_float :=
  match m with
  | Z0 => S754_zero sx
  | Zpos p =>
      if (m =? 2 ^ 53)%Z
      then (if (e + 1 <=? 971)%Z
            then S754_finite sx (2 ^ 52)%positive (e + 1)
            else S754_infinity sx)
      else (if (e <=? 971)%Z then S754_finite sx p e else S754_infinity sx)
  | Zneg _ => S754_nan
  end.

(** A number at or above zero that is not an infinity: a zero or a
    positive finite number. *)
Definition nonneg_finite (x : spec_float) : Prop :=
  match x with
  | S754_zero _ => True
  | S754_finite false _ _ => True
  | _ => False
  end.

(** The record of a shifted mantissa locates the number [x]: [x] lies from
    the mantissa at exponent [e] up to, and not including, the next one,
    and both bits are clear exactly when [x] is the mantissa itself. *)
Definition located (mrs : shr_record) (e : Z) (x : Q) : Prop :=
  (0 <= shr_m mrs)%Z /\
  (Fv (shr_m mrs) e <= x)%Q /\ (x < Fv (shr_m mrs + 1) e)%Q /\
  (shr_r mrs = false -> shr_s mrs = false -> (x == Fv (shr_m mrs) e)%Q) /\
  (shr_r mrs = true \/ shr_s mrs = true -> (Fv (shr_m mrs) e < x)%Q).

(** The same for a mantissa with its location. *)
Definition located_at (m : Z) (l : location) (e : Z) (x : Q) : Prop :=
  (0 <= m)%Z /\
  (Fv m e <= x)%Q /\ (x < Fv (m + 1) e)%Q /\
  (l = loc_Exact -> (x == Fv m e)%Q) /\
  (l <> loc_Exact -> (Fv m e < x)%Q).

(** The exponent of the format for a number of [d + e] bits above the
    binary point. *)
Definition fexp64 (z : Z) : Z := fexp prec emax z.

(** A mantissa and exponent in the shape of the format: at most 53 bits,
    an exponent of -1074 or more, and all 53 bits above that exponent. *)
Definition in_format (m e : Z) : Prop :=
  (0 <= m < 2 ^ 53)%Z /\ (-1074 <= e)%Z /\ (-1074 < e -> 2 ^ 52 <= m)%Z.

End Binary64.



(** * Properties *)

(** ** Binary64 arithmetic *)

Section Binary64Facts.

Import Binary64.
Local Open Scope Z_scope.

(** *** Powers of two *)

Lemma bpow_pos (e : Z) : (0 < bpow e)%Q.
Proof. unfold bpow. apply Qpower_0_lt. reflexivity. Qed.

Lemma bpow_add (a b : Z) : (bpow (a + b) == bpow a * bpow b)%Q.
Proof. unfold bpow. apply Qpower_plus. discriminate. Qed.

Lemma bpow_Z (k : Z) : 0 <= k -> (bpow k == inject_Z (2 ^ k))%Q.
Proof.
  intro Hk. unfold bpow. rewrite Zpower_Qpower by exact Hk. reflexivity.
Qed.

Lemma bpow_0 : (bpow 0 == 1)%Q.
Proof. reflexivity. Qed.

Lemma bpow_succ (e : Z) : (bpow (e + 1) == 2 * bpow e)%Q.
Proof. rewrite bpow_add. unfold bpow at 2. simpl. ring. Qed.

Lemma bpow_le (a b : Z) : a <= b -> (bpow a <= bpow b)%Q.
Proof.
  intro H. replace b with (a + (b - a)) by ring.
  rewrite bpow_add, (bpow_Z (k := b - a)) by lia.
  assert (H1 : (1 <= inject_Z (2 ^ (b - a)))%Q).
  { change 1%Q with (inject_Z 1). rewrite <- Zle_Qle.
    assert (0 < 2 ^ (b - a)) by (apply Z.pow_pos_nonneg; lia). lia. }
  pose proof (bpow_pos a) as Hp.
  rewrite <- (Qmult_1_r (bpow a)) at 1.
  apply Qmult_le_l; assumption.
Qed.

Lemma Fv_shift (m e k : Z) :
  0 <= k -> (Fv (m * 2 ^ k) e == Fv m (e + k))%Q.
Proof.
  intro Hk. unfold Fv. rewrite bpow_add, (bpow_Z Hk), inject_Z_mult. ring.
Qed.

Lemma Fv_le (m1 m2 e : Z) : m1 <= m2 <-> (Fv m1 e <= Fv m2 e)%Q.
Proof.
  unfold Fv. pose proof (bpow_pos e) as Hp. rewrite Zle_Qle. split; intro H.
  - apply Qmult_le_compat_r; [exact H | apply Qlt_le_weak; exact Hp].
  - apply Qmult_lt_0_le_reg_r in H; assumption.
Qed.

Lemma Fv_lt (m1 m2 e : Z) : m1 < m2 <-> (Fv m1 e < Fv m2 e)%Q.
Proof.
  unfold Fv. pose proof (bpow_pos e) as Hp. rewrite Zlt_Qlt. split; intro H.
  - apply Qmult_lt_compat_r; assumption.
  - apply Qmult_lt_r in H; assumption.
Qed.

Lemma Fv_succ (m e : Z) : (Fv (m + 1) e == Fv m e + bpow e)%Q.
Proof. unfold Fv. rewrite inject_Z_plus. change (inject_Z 1) with 1%Q. ring. Qed.

(** *** Number of bits *)

Lemma digits2_size (p : positive) : digits2_pos p = Pos.size p.
Proof. induction p; simpl; congruence. Qed.

Lemma digits_bounds (p : positive) :
  2 ^ (Zpos (digits2_pos p) - 1) <= Zpos p < 2 ^ Zpos (digits2_pos p).
Proof.
  rewrite digits2_size.
  pose proof (Pos.size_gt p) as Hgt. pose proof (Pos.size_le p) as Hle.
  assert (Hpow : forall q, Zpos (2 ^ q) = 2 ^ Zpos q).
  { intro q. rewrite Pos2Z.inj_pow. reflexivity. }
  split.
  - assert (H2 : 2 ^ Zpos (Pos.size p) = 2 * 2 ^ (Zpos (Pos.size p) - 1)).
    { rewrite <- Z.pow_succ_r by lia. f_equal. lia. }
    apply Pos2Z.pos_le_pos in Hle. rewrite Hpow in Hle.
    change (Zpos p~0) with (2 * Zpos p) in Hle. lia.
  - apply Pos2Z.pos_lt_pos in Hgt. rewrite Hpow in Hgt. exact Hgt.
Qed.

Lemma Zdigits2_bounds (m : Z) :
  0 < m -> 2 ^ (Zdigits2 m - 1) <= m < 2 ^ Zdigits2 m.
Proof.
  destruct m as [|p|p]; try lia. intros _. simpl. apply digits_bounds.
Qed.

Lemma Zdigits2_nonneg (m : Z) : 0 <= Zdigits2 m.
Proof. destruct m; simpl; lia. Qed.

(** A number below [2^k] has at most [k] bits, a number from [2^(k-1)]
    on has at least [k]. *)
Lemma Zdigits2_le (m k : Z) : 0 <= k -> 0 <= m < 2 ^ k -> Zdigits2 m <= k.
Proof.
  intros Hk [H0 Hlt]. destruct (Z.eq_dec m 0) as [->|Hne]; [simpl; lia|].
  destruct (Zdigits2_bounds (m := m) ltac:(lia)) as [Hlo _].
  destruct (Z_le_gt_dec (Zdigits2 m) k) as [|Hgt]; [assumption|].
  exfalso.
  assert (2 ^ k <= 2 ^ (Zdigits2 m - 1)) by (apply Z.pow_le_mono_r; lia).
  lia.
Qed.

Lemma Zdigits2_ge (m k : Z) : 2 ^ (k - 1) <= m -> 0 < m -> k <= Zdigits2 m.
Proof.
  intros Hle Hpos.
  destruct (Zdigits2_bounds Hpos) as [_ Hhi].
  destruct (Z_le_gt_dec k (Zdigits2 m)) as [|Hgt]; [assumption|].
  exfalso.
  pose proof (Zdigits2_nonneg m).
  assert (2 ^ Zdigits2 m <= 2 ^ (k - 1)) by (apply Z.pow_le_mono_r; lia).
  lia.
Qed.

End Binary64Facts.

Section Shifting.

Import Binary64.
Local Open Scope Z_scope.

Lemma Fv_half (m e : Z) (b : Z) :
  (Fv (2 * m + b) e == Fv m (e + 1) + inject_Z b * bpow e)%Q.
Proof.
  unfold Fv. rewrite bpow_succ, inject_Z_plus, inject_Z_mult.
  change (inject_Z 2) with 2%Q. ring.
Qed.

Lemma shr_1_located (mrs : shr_record) (e : Z) (x : Q) :
  located mrs e x ->
  located (shr_1 mrs) (e + 1) x /\
  shr_m (shr_1 mrs) = shr_m mrs / 2.
Proof.
  destruct mrs as [m r s]. unfold located. cbn [shr_m shr_r shr_s].
  intros (Hm & Hlo & Hhi & Hex & Hin).
  pose proof (bpow_pos e) as Hp.
  assert (Hcases : exists m' b, m = 2 * m' + b /\ 0 <= m' /\
            (b = 0 \/ b = 1) /\
            shr_1 {| shr_m := m; shr_r := r; shr_s := s |} =
            {| shr_m := m'; shr_r := (b =? 1); shr_s := r || s |}).
  { destruct m as [|[p|p|]|p]; try lia.
    - exists 0, 0. repeat split; lia.
    - exists (Zpos p), 1. repeat split; lia.
    - exists (Zpos p), 0. repeat split; lia.
    - exists 0, 1. repeat split; lia. }
  destruct Hcases as (m' & b & -> & Hm' & Hb & ->).
  cbn [shr_m shr_r shr_s].
  assert (Hdiv : (2 * m' + b) / 2 = m').
  { symmetry. apply (Z.div_unique _ 2 m' b); [lia | reflexivity]. }
  split; [|symmetry; exact Hdiv].
  pose proof (Fv_half m' e b) as E1.
  pose proof (Fv_half m' e (b + 1)) as E2.
  replace (2 * m' + (b + 1)) with (2 * m' + b + 1) in E2 by ring.
  pose proof (Fv_succ m' (e + 1)) as E3.
  pose proof (bpow_succ e) as E4.
  rewrite E1 in Hlo, Hex, Hin. rewrite E2 in Hhi.
  rewrite inject_Z_plus in Hhi. change (inject_Z 1) with 1%Q in Hhi.
  assert (Hb' : (inject_Z b == 0)%Q /\ b = 0 \/ (inject_Z b == 1)%Q /\ b = 1).
  { destruct Hb as [-> | ->]; [left | right]; split; reflexivity. }
  split; [exact Hm'|].
  split; [destruct Hb' as [[Hb' _] | [Hb' _]]; rewrite Hb' in Hlo; lra|].
  split; [rewrite E3, E4;
          destruct Hb' as [[Hb' _] | [Hb' _]]; rewrite Hb' in Hhi; lra|].
  split.
  - intros Hr Hs. apply orb_false_iff in Hs. destruct Hs as [-> ->].
    destruct Hb' as [[Hb' ->] | [_ ->]]; [|discriminate Hr].
    rewrite (Hex eq_refl eq_refl), Hb'. ring.
  - intros [Hr | Hs].
    + destruct Hb' as [[_ ->] | [Hb' _]]; [discriminate Hr|].
      rewrite Hb' in Hlo. lra.
    + apply orb_true_iff in Hs.
      assert (Hlt := Hin ltac:(destruct Hs; [left|right]; assumption)).
      destruct Hb' as [[Hb' _] | [Hb' _]]; rewrite Hb' in Hlt; lra.
Qed.

Lemma iter_shr_located (p : positive) (mrs : shr_record) (e : Z) (x : Q) :
  located mrs e x ->
  located (iter_pos shr_1 p mrs) (e + Zpos p) x /\
  shr_m (iter_pos shr_1 p mrs) = shr_m mrs / 2 ^ Zpos p.
Proof.
  revert mrs e. induction p as [p IH | p IH |]; intros mrs e H.
  - cbn [iter_pos].
    destruct (shr_1_located H) as [H1 E1].
    destruct (IH _ _ H1) as [H2 E2].
    destruct (IH _ _ H2) as [H3 E3].
    split.
    + replace (e + Zpos p~1) with (e + 1 + Zpos p + Zpos p) by lia.
      exact H3.
    + rewrite E3, E2, E1.
      rewrite !Z.div_div by (try lia; apply Z.pow_pos_nonneg; lia).
      f_equal. replace (Zpos p~1) with (1 + Zpos p + Zpos p) by lia.
      rewrite 2!Z.pow_add_r by lia. change (2 ^ 1) with 2. ring.
  - cbn [iter_pos].
    destruct (IH _ _ H) as [H2 E2].
    destruct (IH _ _ H2) as [H3 E3].
    split.
    + replace (e + Zpos p~0) with (e + Zpos p + Zpos p) by lia.
      exact H3.
    + rewrite E3, E2.
      rewrite !Z.div_div by (try lia; apply Z.pow_pos_nonneg; lia).
      f_equal. replace (Zpos p~0) with (Zpos p + Zpos p) by lia.
      rewrite Z.pow_add_r by lia. reflexivity.
  - cbn [iter_pos]. destruct (shr_1_located H) as [H1 E1].
    split; [exact H1 | exact E1].
Qed.

Lemma located_of_loc (m : Z) (l : location) (e : Z) (x : Q) :
  located_at m l e x -> located (shr_record_of_loc m l) e x.
Proof.
  unfold located_at, located.
  intros (Hm & Hlo & Hhi & Hex & Hin).
  destruct l as [|[| |]]; cbn [shr_record_of_loc shr_m shr_r shr_s];
    (split; [exact Hm|]); (split; [exact Hlo|]); (split; [exact Hhi|]);
    (split; [intros Hr Hs | intros Hrs]);
    first [ discriminate
          | apply Hex; reflexivity
          | apply Hin; discriminate
          | destruct Hrs; discriminate ].
Qed.

Lemma loc_of_located (mrs : shr_record) (e : Z) (x : Q) :
  located mrs e x ->
  located_at (shr_m mrs) (loc_of_shr_record mrs) e x.
Proof.
  destruct mrs as [m r s]. unfold located, located_at.
  cbn [shr_m shr_r shr_s].
  intros (Hm & Hlo & Hhi & Hex & Hin).
  split; [exact Hm|]. split; [exact Hlo|]. split; [exact Hhi|]. split.
  - intro Hl. destruct r; [destruct s; discriminate Hl|].
    destruct s; [discriminate Hl|]. apply Hex; reflexivity.
  - intro Hl. apply Hin. destruct r; [left; reflexivity|].
    destruct s; [right; reflexivity|]. contradiction Hl. reflexivity.
Qed.

(** What [shr_fexp] does to a positioned mantissa that is at least as fine
    as the format: it brings it to the exponent of the format. *)
Lemma shr_fexp_located (m : Z) (l : location) (e : Z) (x : Q) :
  located_at m l e x ->
  e <= fexp64 (Zdigits2 m + e) ->
  let '(mrs, e') := shr_fexp prec emax m e l in
  e' = fexp64 (Zdigits2 m + e) /\
  located mrs e' x /\
  shr_m mrs = m / 2 ^ (e' - e).
Proof.
  intros Hloc Hfine. unfold shr_fexp, shr. fold (fexp64 (Zdigits2 m + e)).
  set (f := fexp64 (Zdigits2 m + e)) in *.
  apply located_of_loc in Hloc.
  destruct (f - e) as [|p|p] eqn:E; try lia.
  - assert (f = e) by lia. subst f.
    split; [symmetry; assumption|]. split; [exact Hloc|].
    replace (e - e) with 0 by lia. rewrite Z.pow_0_r, Z.div_1_r.
    destruct l as [|[| |]]; reflexivity.
  - destruct (iter_shr_located p Hloc) as [H1 E1].
    split; [lia|]. split; [exact H1|].
    rewrite E1. replace (e + Zpos p - e) with (Zpos p) by lia.
    destruct l as [|[| |]]; reflexivity.
Qed.

End Shifting.

Section Rounding.

Import Binary64.
Local Open Scope Z_scope.

Lemma fexp64_eq (z : Z) : fexp64 z = Z.max (z - 53) (-1074).
Proof. reflexivity. Qed.

Lemma shifted_in_format (m e : Z) :
  0 <= m ->
  e <= fexp64 (Zdigits2 m + e) ->
  in_format (m / 2 ^ (fexp64 (Zdigits2 m + e) - e))
            (fexp64 (Zdigits2 m + e)).
Proof.
  intros Hm Hfine. rewrite fexp64_eq in *.
  set (d := Zdigits2 m) in *.
  set (e' := Z.max (d + e - 53) (-1074)) in *.
  assert (Hn : 0 <= e' - e) by lia.
  assert (Hpow : 0 < 2 ^ (e' - e)) by (apply Z.pow_pos_nonneg; lia).
  pose proof (Zdigits2_nonneg m) as Hd. fold d in Hd.
  unfold in_format. repeat split.
  - apply Z.div_pos; lia.
  - apply Z.div_lt_upper_bound; [exact Hpow|].
    rewrite <- Z.pow_add_r by lia.
    destruct (Z.eq_dec m 0) as [->|Hne];
      [apply Z.pow_pos_nonneg; lia|].
    destruct (Zdigits2_bounds (m := m) ltac:(lia)) as [_ Hhi]. fold d in Hhi.
    assert (2 ^ d <= 2 ^ (e' - e + 53)) by (apply Z.pow_le_mono_r; lia).
    lia.
  - lia.
  - intro He'.
    assert (Hm0 : 0 < m).
    { destruct (Z.eq_dec m 0) as [E|Hne]; [|lia].
      exfalso. subst m. unfold d in *. simpl in *. lia. }
    destruct (Zdigits2_bounds Hm0) as [Hlo _]. fold d in Hlo.
    assert (E : e' - e = d - 53) by lia.
    apply Z.div_le_lower_bound; [exact Hpow|].
    rewrite <- Z.pow_add_r by lia.
    replace (e' - e + 52) with (d - 1) by lia. exact Hlo.
Qed.

Lemma round_nearest_even_cases (m : Z) (l : location) :
  round_nearest_even m l = m \/
  (l <> loc_Exact /\ round_nearest_even m l = m + 1).
Proof.
  destruct l as [|[| |]]; simpl; auto.
  - destruct (Z.even m); [left; reflexivity|].
    right. split; [discriminate | reflexivity].
  - right. split; [discriminate | reflexivity].
Qed.

(** The second half of [binary_round_aux], on a mantissa of the format to
    which the rounding may have added one. *)
Lemma wrap_up (sx : bool) (m e : Z) :
  0 <= m <= 2 ^ 53 -> -1074 <= e ->
  (let '(mrs, e') := shr_fexp prec emax m e loc_Exact in
   match shr_m mrs with
   | Z0 => S754_zero sx
   | Zpos p =>
       if e' <=? emax - prec then S754_finite sx p e' else S754_infinity sx
   | Zneg _ => S754_nan
   end) = pack sx m e.
Proof.
  intros Hm He.
  destruct (Z.eq_dec m (2 ^ 53)) as [->|Hne].
  - unfold shr_fexp, shr, pack.
    change (Zdigits2 (2 ^ 53)) with 54.
    fold (fexp64 (54 + e)). rewrite fexp64_eq.
    replace (Z.max (54 + e - 53) (-1074) - e) with 1 by lia.
    reflexivity.
  - assert (Hlt : 0 <= m < 2 ^ 53) by lia.
    pose proof (Zdigits2_le (m := m) (k := 53) ltac:(lia) Hlt) as Hd.
    unfold shr_fexp, shr. fold (fexp64 (Zdigits2 m + e)).
    rewrite fexp64_eq.
    destruct (Z.max (Zdigits2 m + e - 53) (-1074) - e) as [|p|p] eqn:E;
      try lia; cbn [shr_record_of_loc shr_m]; unfold pack;
      destruct m as [|q|q]; try lia; try reflexivity;
      (destruct (Zpos q =? 2 ^ 53) eqn:E'; [apply Z.eqb_eq in E'; lia|]);
      reflexivity.
Qed.

(** What [binary_round_aux] returns for a number [x] located at mantissa
    [m] and exponent [e], when these are at least as fine as the format:
    the neighbour of [x] below in the format, or, only when [x] is not
    that neighbour, the one above. *)
Lemma round_aux_cases (sx : bool) (m : Z) (l : location) (e : Z) (x : Q) :
  located_at m l e x ->
  e <= fexp64 (Zdigits2 m + e) ->
  exists m' e' : Z,
    in_format m' e' /\
    (Fv m' e' <= x)%Q /\ (x < Fv (m' + 1) e')%Q /\
    (binary_round_aux prec emax sx m e l = pack sx m' e' \/
     ((Fv m' e' < x)%Q /\
      binary_round_aux prec emax sx m e l = pack sx (m' + 1) e')).
Proof.
  intros Hloc Hfine.
  pose proof (shr_fexp_located Hloc Hfine) as Hshr.
  unfold binary_round_aux.
  destruct (shr_fexp prec emax m e l) as [mrs e'].
  destruct Hshr as (He' & Hl' & Hm').
  assert (Hfmt : in_format (shr_m mrs) e').
  { rewrite Hm', He'. apply shifted_in_format; [apply Hloc | exact Hfine]. }
  exists (shr_m mrs), e'.
  apply loc_of_located in Hl'.
  destruct Hl' as (H0 & Hlo & Hhi & Hex & Hin).
  split; [exact Hfmt|]. split; [exact Hlo|]. split; [exact Hhi|].
  destruct Hfmt as ((_ & Hlt) & Hemin & _).
  destruct (round_nearest_even_cases (shr_m mrs) (loc_of_shr_record mrs))
    as [-> | [Hne ->]].
  - left. apply wrap_up; lia.
  - right. split; [apply Hin; exact Hne|]. apply wrap_up; lia.
Qed.

(** No number of the format lies strictly between two neighbours. *)
Lemma no_number_between (m e mb eb : Z) :
  in_format m e -> in_format mb eb ->
  (Fv m e < Fv mb eb)%Q -> (Fv mb eb < Fv (m + 1) e)%Q -> False.
Proof.
  intros ((Hm0 & Hm1) & He & Hn) ((Hb0 & Hb1) & Heb & Hnb) Hlo Hhi.
  destruct (Z_le_gt_dec e eb) as [Hle | Hgt].
  - rewrite <- (Z.sub_add e eb), Z.add_comm in Hlo, Hhi.
    rewrite <- Fv_shift in Hlo, Hhi by lia.
    apply Fv_lt in Hlo, Hhi. lia.
  - specialize (Hn ltac:(lia)).
    assert (H1 : (Fv mb eb < Fv (2 ^ 53) eb)%Q) by (apply Fv_lt; lia).
    assert (H2 : (Fv (2 ^ 53) eb <= Fv (2 ^ 52) e)%Q).
    { change (2 ^ 53) with (2 ^ 52 * 2 ^ 1). rewrite Fv_shift by lia.
      unfold Fv. apply Qmult_le_l; [reflexivity|]. apply bpow_le. lia. }
    assert (H3 : (Fv (2 ^ 52) e <= Fv m e)%Q) by (apply Fv_le; exact Hn).
    lra.
Qed.

End Rounding.

Section Ordering.

Import Binary64.
Local Open Scope Z_scope.

Lemma valid_in_format (s : bool) (m : positive) (e : Z) :
  SpecFloat.valid_binary prec emax (S754_finite s m e) = true ->
  in_format (Zpos m) e /\ e <= 971.
Proof.
  unfold SpecFloat.valid_binary, bounded, canonical_mantissa.
  fold (fexp64 (Zpos (digits2_pos m) + e)). rewrite fexp64_eq.
  intro H. apply andb_true_iff in H. destruct H as [Hc He].
  apply Z.eqb_eq in Hc. apply Z.leb_le in He.
  change (emax - prec) with 971 in He.
  pose proof (digits_bounds m) as [Hlo Hhi].
  assert (Hd : 0 < Zpos (digits2_pos m)) by lia.
  split; [|exact He].
  unfold in_format. repeat split; try lia.
  - assert (2 ^ Zpos (digits2_pos m) <= 2 ^ 53)
      by (apply Z.pow_le_mono_r; lia).
    lia.
  - intro Hgt.
    assert (E : Zpos (digits2_pos m) = 53) by lia.
    rewrite E in Hlo. exact Hlo.
Qed.

Lemma Prim2SF_in_format (x : float) (s : bool) (m : positive) (e : Z) :
  Prim2SF x = S754_finite s m e -> in_format (Zpos m) e /\ e <= 971.
Proof.
  intro H. apply (@valid_in_format s). rewrite <- H.
  apply Prim2SF_valid.
Qed.

(** A number of the format with the smaller exponent is the smaller
    one. *)
Lemma Fv_lower_exponent (m1 e1 m2 e2 : Z) :
  in_format m1 e1 -> in_format m2 e2 -> e1 < e2 ->
  (Fv m1 e1 < Fv m2 e2)%Q.
Proof.
  intros ((H10 & H11) & He1 & _) (_ & _ & Hn2) Hlt.
  specialize (Hn2 ltac:(lia)).
  assert (H1 : (Fv m1 e1 < Fv (2 ^ 53) e1)%Q) by (apply Fv_lt; lia).
  assert (H2 : (Fv (2 ^ 53) e1 <= Fv (2 ^ 52) e2)%Q).
  { change (2 ^ 53) with (2 ^ 52 * 2 ^ 1). rewrite Fv_shift by lia.
    unfold Fv. apply Qmult_le_l; [reflexivity|]. apply bpow_le. lia. }
  assert (H3 : (Fv (2 ^ 52) e2 <= Fv m2 e2)%Q) by (apply Fv_le; exact Hn2).
  lra.
Qed.

Lemma SFleb_pos (m1 : positive) (e1 : Z) (m2 : positive) (e2 : Z) :
  in_format (Zpos m1) e1 -> in_format (Zpos m2) e2 ->
  (SFleb (S754_finite false m1 e1) (S754_finite false m2 e2) = true <->
   (Fv (Zpos m1) e1 <= Fv (Zpos m2) e2)%Q).
Proof.
  intros F1 F2. unfold SFleb, SFcompare.
  destruct (Z.compare_spec e1 e2) as [E | Hlt | Hgt].
  - subst e2. change (Pos.compare_cont Eq m1 m2) with (Pos.compare m1 m2).
    rewrite <- Fv_le.
    destruct (Pos.compare_spec m1 m2) as [E | H | H]; split; intro H';
      try reflexivity; try discriminate; subst; lia.
  - pose proof (Fv_lower_exponent F1 F2 Hlt).
    split; [intros _; lra | reflexivity].
  - pose proof (Fv_lower_exponent F2 F1 Hgt).
    split; [discriminate | intro; lra].
Qed.

Lemma Fv_pos (m e : Z) : 0 < m -> (0 < Fv m e)%Q.
Proof.
  intro H. unfold Fv. pose proof (bpow_pos e).
  apply Qmult_lt_0_compat; [|assumption].
  change 0%Q with (inject_Z 0). rewrite <- Zlt_Qlt. exact H.
Qed.

Lemma in_format_succ (m e : Z) :
  in_format m e -> m + 1 < 2 ^ 53 -> in_format (m + 1) e.
Proof.
  intros ((H0 & H1) & He & Hn) Hlt. unfold in_format.
  repeat split; lia.
Qed.

Lemma pack_finite (p : positive) (e : Z) :
  in_format (Zpos p) e -> e <= 971 ->
  pack false (Zpos p) e = S754_finite false p e.
Proof.
  intros ((_ & H1) & _) He. unfold pack.
  destruct (Zpos p =? 2 ^ 53) eqn:E; [apply Z.eqb_eq in E; lia|].
  destruct (e <=? 971) eqn:E'; [reflexivity | apply Z.leb_gt in E'; lia].
Qed.

(** What [pack] returns for a mantissa of the format or the next one. *)
Lemma pack_cases (m e M : Z) :
  in_format m e -> M = m \/ M = m + 1 ->
  (M = 0 /\ pack false M e = S754_zero false) \/
  (exists (p : positive) (E : Z),
     in_format (Zpos p) E /\ (Fv (Zpos p) E == Fv M e)%Q /\
     ((E <= 971 /\ pack false M e = S754_finite false p E) \/
      (971 < E /\ pack false M e = S754_infinity false))).
Proof.
  intros Hf HM.
  assert (HM' : M = 2 ^ 53 \/ in_format M e).
  { destruct HM as [-> | ->]; [right; exact Hf|].
    destruct (Z.eq_dec (m + 1) (2 ^ 53)) as [E | Hne]; [left; exact E|].
    right. apply in_format_succ; [exact Hf|]. destruct Hf as ((_ & ?) & _).
    lia. }
  destruct HM' as [-> | HfM].
  - right. exists (2 ^ 52)%positive, (e + 1).
    destruct Hf as (_ & He & _).
    split; [unfold in_format; repeat split; try lia; reflexivity|].
    split.
    + change (2 ^ 53) with (2 ^ 52 * 2 ^ 1). rewrite Fv_shift by lia.
      reflexivity.
    + unfold pack. change (2 ^ 53 =? 2 ^ 53) with true. cbv iota.
      change (match 2 ^ 53 with 0 => S754_zero false | Z.pos _ =>
              if e + 1 <=? 971 then S754_finite false (2 ^ 52) (e + 1)
              else S754_infinity false | Z.neg _ => S754_nan end)
        with (if e + 1 <=? 971 then S754_finite false (2 ^ 52) (e + 1)
              else S754_infinity false).
      destruct (e + 1 <=? 971) eqn:E;
        [apply Z.leb_le in E; left | apply Z.leb_gt in E; right];
        split; (lia || reflexivity).
  - destruct M as [|p|p].
    + left. split; reflexivity.
    + right. exists p, e. split; [exact HfM|]. split; [reflexivity|].
      destruct (Z_le_gt_dec e 971) as [Hle | Hgt].
      * left. split; [exact Hle|]. apply pack_finite; assumption.
      * right. split; [lia|]. unfold pack.
        destruct HfM as ((_ & H1) & _).
        destruct (Zpos p =? 2 ^ 53) eqn:E; [apply Z.eqb_eq in E; lia|].
        destruct (e <=? 971) eqn:E'; [apply Z.leb_le in E'; lia|reflexivity].
    + destruct HfM as ((H0 & _) & _). lia.
Qed.

Lemma pack_le (m e M : Z) (mb : positive) (eb : Z) :
  in_format m e -> M = m \/ M = m + 1 ->
  in_format (Zpos mb) eb -> eb <= 971 ->
  (Fv M e <= Fv (Zpos mb) eb)%Q ->
  SFleb (pack false M e) (S754_finite false mb eb) = true.
Proof.
  intros Hf HM Hb Heb Hle.
  destruct (pack_cases Hf HM) as [[_ ->] | (p & E & Hp & Hv & Hc)];
    [reflexivity|].
  rewrite <- Hv in Hle.
  assert (HE : E <= eb).
  { destruct (Z_le_gt_dec E eb) as [|Hgt]; [assumption|].
    pose proof (Fv_lower_exponent Hb Hp ltac:(lia)). lra. }
  destruct Hc as [[_ ->] | [Hgt _]]; [|lia].
  apply SFleb_pos; assumption.
Qed.

Lemma pack_ge (m e M : Z) (ma : positive) (ea : Z) :
  in_format m e -> M = m \/ M = m + 1 ->
  in_format (Zpos ma) ea ->
  (Fv (Zpos ma) ea <= Fv M e)%Q ->
  SFleb (S754_finite false ma ea) (pack false M e) = true.
Proof.
  intros Hf HM Ha Hle.
  destruct (pack_cases Hf HM) as [[-> _] | (p & E & Hp & Hv & Hc)].
  - exfalso. pose proof (Fv_pos ea (m := Zpos ma) ltac:(lia)) as Hpos.
    unfold Fv in Hle at 2. change (inject_Z 0) with 0%Q in Hle. lra.
  - rewrite <- Hv in Hle.
    destruct Hc as [[_ ->] | [_ ->]]; [|reflexivity].
    apply SFleb_pos; assumption.
Qed.

(** A number of the format at or above [x] is at or above what
    [binary_round_aux] returns for [x], and one at or below [x] is at or
    below it: the rounding is monotone. *)
Lemma round_upper (m : Z) (l : location) (e : Z) (x : Q)
    (mb : positive) (eb : Z) :
  located_at m l e x ->
  e <= fexp64 (Zdigits2 m + e) ->
  in_format (Zpos mb) eb -> eb <= 971 ->
  (x <= Fv (Zpos mb) eb)%Q ->
  SFleb (binary_round_aux prec emax false m e l) (S754_finite false mb eb)
  = true.
Proof.
  intros Hloc Hfine Hb Heb Hle.
  destruct (round_aux_cases false Hloc Hfine)
    as (m' & e' & Hf & Hlo & Hhi & [-> | [Hlt ->]]).
  - apply (pack_le Hf); auto. lra.
  - apply (pack_le Hf); auto.
    destruct (Qlt_le_dec (Fv (Zpos mb) eb) (Fv (m' + 1) e')) as [Hc|Hc];
      [|exact Hc].
    exfalso. apply (no_number_between Hf Hb); [lra | exact Hc].
Qed.

Lemma round_lower (m : Z) (l : location) (e : Z) (x : Q)
    (ma : positive) (ea : Z) :
  located_at m l e x ->
  e <= fexp64 (Zdigits2 m + e) ->
  in_format (Zpos ma) ea ->
  (Fv (Zpos ma) ea <= x)%Q ->
  SFleb (S754_finite false ma ea) (binary_round_aux prec emax false m e l)
  = true.
Proof.
  intros Hloc Hfine Ha Hle.
  destruct (round_aux_cases false Hloc Hfine)
    as (m' & e' & Hf & Hlo & Hhi & [-> | [Hlt ->]]).
  - apply (pack_ge Hf); auto.
    destruct (Qlt_le_dec (Fv m' e') (Fv (Zpos ma) ea)) as [Hc|Hc];
      [|exact Hc].
    exfalso. apply (no_number_between Hf Ha); [exact Hc | lra].
  - apply (pack_ge Hf); auto. lra.
Qed.

End Ordering.

Section Operations.

Import Binary64.
Local Open Scope Z_scope.

Lemma located_exact (m e : Z) :
  0 <= m -> located_at m loc_Exact e (Fv m e).
Proof.
  intro Hm. unfold located_at.
  split; [exact Hm|]. split; [apply Qle_refl|].
  split; [apply Fv_lt; lia|]. split; [reflexivity|].
  intro H. contradiction H. reflexivity.
Qed.

Lemma located_at_ext (m : Z) (l : location) (e : Z) (x y : Q) :
  (x == y)%Q -> located_at m l e x -> located_at m l e y.
Proof.
  intros E (H0 & Hlo & Hhi & Hex & Hin). unfold located_at.
  rewrite <- E. repeat split; auto.
Qed.

Lemma Fv_mul (m1 e1 m2 e2 : Z) :
  (Fv m1 e1 * Fv m2 e2 == Fv (m1 * m2) (e1 + e2))%Q.
Proof. unfold Fv. rewrite bpow_add, inject_Z_mult. ring. Qed.

Lemma Fv_add_same (m1 m2 e : Z) :
  (Fv m1 e + Fv m2 e == Fv (m1 + m2) e)%Q.
Proof. unfold Fv. rewrite inject_Z_plus. ring. Qed.

(** *** Multiplication *)

Lemma mul_fine (mx : positive) (ex : Z) (my : positive) (ey : Z) :
  in_format (Zpos mx) ex -> in_format (Zpos my) ey ->
  ex + ey <= fexp64 (Zdigits2 (Zpos (mx * my)) + (ex + ey)).
Proof.
  intros (_ & Hex & Hnx) (_ & Hey & Hny). rewrite fexp64_eq.
  destruct (Z_le_gt_dec (ex + ey) (-1074)) as [Hle | Hgt]; [lia|].
  assert (Hbig : 2 ^ 52 <= Zpos (mx * my)).
  { rewrite Pos2Z.inj_mul.
    destruct (Z_le_gt_dec ex (-1074)) as [Hx | Hx].
    - specialize (Hny ltac:(lia)). nia.
    - specialize (Hnx ltac:(lia)). nia. }
  pose proof (@Zdigits2_ge (Zpos (mx * my)) 53 Hbig ltac:(lia)). lia.
Qed.

Lemma SF64mul_upper (mx : positive) (ex : Z) (my : positive) (ey : Z)
    (mb : positive) (eb : Z) :
  in_format (Zpos mx) ex -> in_format (Zpos my) ey ->
  in_format (Zpos mb) eb -> eb <= 971 ->
  (Fv (Zpos mx) ex * Fv (Zpos my) ey <= Fv (Zpos mb) eb)%Q ->
  SFleb (SF64mul (S754_finite false mx ex) (S754_finite false my ey))
        (S754_finite false mb eb) = true.
Proof.
  intros Hx Hy Hb Heb Hle.
  unfold SF64mul, SFmul. cbn [xorb].
  apply round_upper with (x := Fv (Zpos (mx * my)) (ex + ey)).
  - apply located_exact. lia.
  - apply mul_fine; assumption.
  - exact Hb.
  - exact Heb.
  - rewrite Pos2Z.inj_mul, <- Fv_mul. exact Hle.
Qed.

(** *** Addition *)

Lemma iter_xO (m d : positive) :
  Zpos (Pos.iter xO m d) = Zpos m * 2 ^ Zpos d.
Proof.
  induction d as [|d IH] using Pos.peano_ind.
  - simpl. lia.
  - rewrite Pos.iter_succ, Pos2Z.inj_succ, Z.pow_succ_r by lia.
    rewrite Pos2Z.inj_xO, IH. ring.
Qed.

Lemma shl_align_spec (mx : positive) (ex t : Z) :
  let '(m', e') := shl_align mx ex t in
  e' = Z.min ex t /\ Zpos m' = Zpos mx * 2 ^ (ex - e').
Proof.
  unfold shl_align. destruct (t - ex) as [|p|p] eqn:E.
  - split; [lia|]. replace (ex - ex) with 0 by lia. lia.
  - split; [lia|]. replace (ex - ex) with 0 by lia. lia.
  - split; [lia|]. rewrite iter_xO. f_equal. f_equal. lia.
Qed.

Lemma Zdigits2_shift (m k : Z) :
  0 < m -> 0 <= k -> Zdigits2 m + k <= Zdigits2 (m * 2 ^ k).
Proof.
  intros Hm Hk.
  destruct (Zdigits2_bounds Hm) as [Hlo _].
  pose proof (Zdigits2_nonneg m).
  assert (Hp : 0 < 2 ^ k) by (apply Z.pow_pos_nonneg; lia).
  apply Zdigits2_ge; [|nia].
  replace (Zdigits2 m + k - 1) with (Zdigits2 m - 1 + k) by lia.
  destruct (Z.eq_dec (Zdigits2 m) 0) as [E|Hne].
  - exfalso. destruct m; simpl in E; lia.
  - rewrite Z.pow_add_r by lia. nia.
Qed.

Lemma fexp64_mono (a b : Z) : a <= b -> fexp64 a <= fexp64 b.
Proof. rewrite !fexp64_eq. lia. Qed.

(** [binary_round] returns, for a mantissa and an exponent, the rounding
    of their number. *)
Lemma binary_round_located (sx : bool) (M : positive) (ez : Z) :
  exists (mz : positive) (e2 : Z),
    binary_round prec emax sx M ez =
      binary_round_aux prec emax sx (Zpos mz) e2 loc_Exact /\
    (Fv (Zpos mz) e2 == Fv (Zpos M) ez)%Q /\
    e2 <= fexp64 (Zdigits2 (Zpos mz) + e2).
Proof.
  unfold binary_round.
  fold (fexp64 (Zpos (digits2_pos M) + ez)).
  pose proof (shl_align_spec M ez (fexp64 (Zpos (digits2_pos M) + ez)))
    as Hs.
  destruct (shl_align M ez (fexp64 (Zpos (digits2_pos M) + ez)))
    as [mz e2].
  destruct Hs as [He2 Hmz].
  exists mz, e2. split; [reflexivity|].
  assert (Hk : 0 <= ez - e2) by lia.
  split.
  - rewrite Hmz, Fv_shift by exact Hk. unfold Fv.
    replace (e2 + (ez - e2)) with ez by lia. reflexivity.
  - pose proof (@Zdigits2_shift (Zpos M) (ez - e2) ltac:(lia) Hk) as Hd.
    rewrite <- Hmz in Hd.
    change (Zdigits2 (Zpos M)) with (Zpos (digits2_pos M)) in Hd.
    assert (Hm : fexp64 (Zpos (digits2_pos M) + ez)
                 <= fexp64 (Zdigits2 (Zpos mz) + e2))
      by (apply fexp64_mono; lia).
    lia.
Qed.

Lemma SF64add_value (mx : positive) (ex : Z) (my : positive) (ey : Z) :
  exists (mz : positive) (e2 : Z),
    SF64add (S754_finite false mx ex) (S754_finite false my ey) =
      binary_round_aux prec emax false (Zpos mz) e2 loc_Exact /\
    (Fv (Zpos mz) e2 == Fv (Zpos mx) ex + Fv (Zpos my) ey)%Q /\
    e2 <= fexp64 (Zdigits2 (Zpos mz) + e2).
Proof.
  unfold SF64add, SFadd. cbn [cond_Zopp].
  pose proof (shl_align_spec mx ex (Z.min ex ey)) as Hx.
  pose proof (shl_align_spec my ey (Z.min ex ey)) as Hy.
  destruct (shl_align mx ex (Z.min ex ey)) as [mx' ex'].
  destruct (shl_align my ey (Z.min ex ey)) as [my' ey'].
  destruct Hx as [Hex' Hmx']. destruct Hy as [Hey' Hmy'].
  cbn [fst]. change (Zpos mx' + Zpos my') with (Zpos (mx' + my')).
  unfold binary_normalize.
  destruct (binary_round_located false (mx' + my') (Z.min ex ey))
    as (mz & e2 & Hr & Hv & Hfine).
  exists mz, e2. split; [exact Hr|]. split; [|exact Hfine].
  rewrite Hv, Pos2Z.inj_add, <- Fv_add_same, Hmx', Hmy'.
  rewrite !Fv_shift by lia.
  replace (Z.min ex ey + (ex - ex')) with ex by lia.
  replace (Z.min ex ey + (ey - ey')) with ey by lia.
  reflexivity.
Qed.

(** The sum of two positive numbers is not below the second. *)
Lemma SF64add_lower (mx : positive) (ex : Z) (my : positive) (ey : Z) :
  in_format (Zpos my) ey ->
  SFleb (S754_finite false my ey)
        (SF64add (S754_finite false mx ex) (S754_finite false my ey))
  = true.
Proof.
  intro Hy.
  destruct (SF64add_value mx ex my ey) as (mz & e2 & -> & Hv & Hfine).
  apply round_lower with (x := Fv (Zpos mz) e2).
  - apply located_exact. lia.
  - exact Hfine.
  - exact Hy.
  - rewrite Hv. pose proof (Fv_pos ex (m := Zpos mx) ltac:(lia)). lra.
Qed.

End Operations.

Section Division.

Import Binary64.
Local Open Scope Z_scope.

Lemma new_location_exact (n k : Z) :
  (k = 0 -> new_location n k = loc_Exact) /\
  (k <> 0 -> new_location n k <> loc_Exact).
Proof.
  unfold new_location, new_location_even, new_location_odd.
  split; intro H.
  - subst k.
    match goal with |- context [if ?b then _ else _] => destruct b end;
      reflexivity.
  - apply Z.eqb_neq in H.
    match goal with |- context [if ?b then _ else _] => destruct b end;
      cbv beta; rewrite H; discriminate.
Qed.

(** The quotient that [SFdiv_core_binary] hands to the rounding locates
    the exact quotient, and is at least as fine as the format. *)
Lemma div_core_located (mx : positive) (ex : Z) (my : positive) (ey : Z) :
  let '(q, e', l) := SFdiv_core_binary prec emax (Zpos mx) ex (Zpos my) ey in
  located_at q l e' (Fv (Zpos mx) ex / Fv (Zpos my) ey)%Q /\
  e' <= fexp64 (Zdigits2 q + e').
Proof.
  unfold SFdiv_core_binary.
  set (d1 := Zdigits2 (Zpos mx)). set (d2 := Zdigits2 (Zpos my)).
  fold (fexp64 (d1 + ex - (d2 + ey))).
  set (e' := Z.min (fexp64 (d1 + ex - (d2 + ey))) (ex - ey)).
  set (s := ex - ey - e').
  assert (Hs : 0 <= s) by (unfold s, e'; lia).
  set (m' := match s with
             | 0 => Zpos mx
             | Zpos _ => Z.shiftl (Zpos mx) s
             | Zneg _ => 0
             end).
  assert (Hm' : m' = Zpos mx * 2 ^ s).
  { unfold m'. destruct s as [|p|p] eqn:E; try lia.
    rewrite Z.shiftl_mul_pow2 by lia. reflexivity. }
  pose proof (Z_div_mod m' (Zpos my) ltac:(lia)) as Hdm.
  destruct (Z.div_eucl m' (Zpos my)) as [q r].
  destruct Hdm as [Heq Hr].
  assert (Hpow : 0 < 2 ^ s) by (apply Z.pow_pos_nonneg; lia).
  assert (Hq : 0 <= q) by nia.
  pose proof (Fv_pos ey (m := Zpos my) ltac:(lia)) as Hypos.
  assert (Hnum : (Fv (Zpos mx) ex == Fv (Zpos my * q + r) (e' + ey))%Q).
  { rewrite <- Heq, Hm', Fv_shift by exact Hs.
    replace (e' + ey + s) with ex by (unfold s; lia). reflexivity. }
  assert (Hprod : forall k, (Fv k e' * Fv (Zpos my) ey
                             == Fv (Zpos my * k) (e' + ey))%Q).
  { intro k. rewrite Fv_mul. f_equal. rewrite Z.mul_comm. reflexivity. }
  split.
  - unfold located_at. split; [exact Hq|].
    split; [|split; [|split]].
    + apply Qle_shift_div_l; [exact Hypos|].
      rewrite Hprod, Hnum. apply Fv_le. lia.
    + apply Qlt_shift_div_r; [exact Hypos|].
      rewrite Hprod, Hnum. apply Fv_lt. lia.
    + intro Hl.
      assert (r = 0).
      { destruct (Z.eq_dec r 0) as [|Hne]; [assumption|].
        exfalso. apply (proj2 (new_location_exact (Zpos my) r) Hne Hl). }
      subst r. rewrite Z.add_0_r in Hnum. rewrite Hnum, <- Hprod.
      apply Qdiv_mult_l. intro E. rewrite E in Hypos.
      apply (Qlt_irrefl 0 Hypos).
    + intro Hl.
      assert (r <> 0).
      { intro E. apply Hl. apply (proj1 (new_location_exact (Zpos my) r) E). }
      apply Qlt_shift_div_l; [exact Hypos|].
      rewrite Hprod, Hnum. apply Fv_lt. lia.
  - rewrite fexp64_eq.
    destruct (Z_le_gt_dec e' (-1074)) as [Hle | Hgt]; [lia|].
    assert (Hf : e' <= fexp64 (d1 + ex - (d2 + ey))) by (unfold e'; lia).
    rewrite fexp64_eq in Hf.
    assert (Hs' : 53 + d2 - d1 <= s) by (unfold s; lia).
    destruct (@Zdigits2_bounds (Zpos mx) ltac:(lia)) as [Hlo1 _].
    destruct (@Zdigits2_bounds (Zpos my) ltac:(lia)) as [_ Hhi2].
    fold d1 in Hlo1. fold d2 in Hhi2.
    assert (Hd1 : 1 <= d1) by (unfold d1; simpl; lia).
    assert (Hd2 : 1 <= d2) by (unfold d2; simpl; lia).
    assert (Hbig : 2 ^ 52 * Zpos my <= m').
    { rewrite Hm'.
      assert (H1 : 2 ^ (d1 - 1) * 2 ^ s <= Zpos mx * 2 ^ s) by nia.
      assert (H2 : 2 ^ (52 + d2) <= 2 ^ (d1 - 1 + s))
        by (apply Z.pow_le_mono_r; lia).
      rewrite Z.pow_add_r in H2 by lia.
      rewrite (Z.pow_add_r 2 (d1 - 1) s) in H2 by lia.
      assert (H3 : 2 ^ 52 * Zpos my <= 2 ^ 52 * 2 ^ d2) by nia.
      lia. }
    assert (Hq52 : 2 ^ 52 <= q) by nia.
    pose proof (@Zdigits2_ge q 53 Hq52 ltac:(lia)). lia.
Qed.

Lemma one_in_format : in_format (Zpos (2 ^ 52)) (-52).
Proof. unfold in_format. repeat split; try lia; reflexivity. Qed.

Lemma Fv_one : (Fv (Zpos (2 ^ 52)) (-52) == 1)%Q.
Proof. reflexivity. Qed.

(** The quotient of a positive number by one that is not smaller is at
    most one. *)
Lemma SF64div_upper (mx : positive) (ex : Z) (my : positive) (ey : Z) :
  (Fv (Zpos mx) ex <= Fv (Zpos my) ey)%Q ->
  SFleb (SF64div (S754_finite false mx ex) (S754_finite false my ey))
        (S754_finite false (2 ^ 52) (-52)) = true.
Proof.
  intro Hle. unfold SF64div, SFdiv. cbn [xorb].
  pose proof (div_core_located mx ex my ey) as H.
  destruct (SFdiv_core_binary prec emax (Zpos mx) ex (Zpos my) ey)
    as [[q e'] l].
  destruct H as [Hloc Hfine].
  apply round_upper with (x := (Fv (Zpos mx) ex / Fv (Zpos my) ey)%Q).
  - exact Hloc.
  - exact Hfine.
  - exact one_in_format.
  - lia.
  - rewrite Fv_one.
    pose proof (Fv_pos ey (m := Zpos my) ltac:(lia)) as Hypos.
    apply Qle_shift_div_r; [exact Hypos|]. lra.
Qed.

End Division.

Section Percentage.

Import Binary64 Orders.
Local Open Scope Z_scope.

Lemma Prim2SF_zero : Prim2SF 0%float = S754_zero false.
Proof. vm_compute. reflexivity. Qed.

Lemma Prim2SF_hundred :
  Prim2SF 100%float = S754_finite false 7036874417766400 (-46).
Proof. vm_compute. reflexivity. Qed.

Lemma hundred_in_format : in_format (Zpos 7036874417766400) (-46).
Proof. unfold in_format. repeat split; try lia; vm_compute; discriminate. Qed.

Lemma Fv_hundred : (Fv (Zpos 7036874417766400) (-46) == 100)%Q.
Proof. reflexivity. Qed.

(** A number at or above zero is a zero, a positive number or plus
    infinity. *)
Lemma nonneg_cases (x : float) :
  (0 <=? x)%float = true ->
  (exists s, Prim2SF x = S754_zero s) \/
  (exists m e, Prim2SF x = S754_finite false m e) \/
  Prim2SF x = S754_infinity false.
Proof.
  rewrite FloatAxioms.leb_spec, Prim2SF_zero.
  destruct (Prim2SF x) as [s | [|] | | [|] m e]; intro H;
    try discriminate H; eauto.
Qed.

Lemma positive_cases (x : float) :
  (0 <? x)%float = true ->
  (exists m e, Prim2SF x = S754_finite false m e) \/
  Prim2SF x = S754_infinity false.
Proof.
  rewrite FloatAxioms.ltb_spec, Prim2SF_zero.
  destruct (Prim2SF x) as [s | [|] | | [|] m e]; intro H;
    try discriminate H; eauto.
Qed.

(** What the rounding returns is not below zero. *)
Lemma round_nonneg (m : Z) (l : location) (e : Z) (x : Q) :
  located_at m l e x ->
  e <= fexp64 (Zdigits2 m + e) ->
  SFleb (S754_zero false) (binary_round_aux prec emax false m e l) = true.
Proof.
  intros Hloc Hfine.
  destruct (round_aux_cases false Hloc Hfine)
    as (m' & e' & Hf & _ & _ & [-> | [_ ->]]).
  - destruct (@pack_cases m' e' m' Hf ltac:(left; reflexivity))
      as [[_ ->] | (p & E & _ & _ & [[_ ->] | [_ ->]])]; reflexivity.
  - destruct (@pack_cases m' e' (m' + 1) Hf ltac:(right; reflexivity))
      as [[_ ->] | (p & E & _ & _ & [[_ ->] | [_ ->]])]; reflexivity.
Qed.

Lemma float_of_small (n : Z) :
  0 <= n <= 100 ->
  (0 <=? float_of_Z n)%float = true /\ (float_of_Z n <=? 100)%float = true.
Proof.
  intro Hn.
  assert (Hall :
    forallb (fun k : nat =>
               (0 <=? float_of_Z (Z.of_nat k))%float &&
               (float_of_Z (Z.of_nat k) <=? 100)%float) (seq 0 101) = true).
  { vm_compute. reflexivity. }
  rewrite forallb_forall in Hall.
  specialize (Hall (Z.to_nat n)). rewrite Z2Nat.id in Hall by lia.
  apply andb_true_iff. apply Hall. apply in_seq. lia.
Qed.

(** [Math.round] keeps a number within 0 and 100. *)
Lemma Math_round_range (x : float) :
  (0 <=? x)%float = true -> (x <=? 100)%float = true ->
  (0 <=? Math_round x)%float = true /\
  (Math_round x <=? 100)%float = true.
Proof.
  intros H0 H100. unfold Math_round.
  destruct (nonneg_cases H0) as [[s E] | [(m & e & E) | E]]; rewrite E.
  - split; assumption.
  - destruct (0 <=? e) eqn:Ee; [split; assumption|].
    apply Z.leb_gt in Ee.
    destruct (Prim2SF_in_format x E) as [Hf _].
    rewrite FloatAxioms.leb_spec, E, Prim2SF_hundred in H100.
    apply (SFleb_pos Hf hundred_in_format) in H100.
    rewrite Fv_hundred in H100.
    set (k := - e) in *.
    assert (Hk : 0 < k) by (unfold k; lia).
    assert (Hm : Zpos m <= 100 * 2 ^ k).
    { rewrite Zle_Qle, inject_Z_mult.
      rewrite <- (bpow_Z (k := k)) by lia.
      unfold Fv in H100.
      pose proof (bpow_pos k) as Hp.
      assert (Hone : (bpow e * bpow k == 1)%Q).
      { rewrite <- bpow_add. replace (e + k) with 0 by (unfold k; lia).
        reflexivity. }
      assert (H' : (inject_Z (Zpos m) * bpow e * bpow k
                    <= 100 * bpow k)%Q).
      { apply Qmult_le_compat_r; [exact H100 | apply Qlt_le_weak; exact Hp]. }
      rewrite <- Qmult_assoc, Hone, Qmult_1_r in H'. exact H'. }
    assert (Hpow : 0 < 2 ^ k) by (apply Z.pow_pos_nonneg; lia).
    replace (1 - e) with (k + 1) by (unfold k; lia).
    assert (Hpow1 : 2 ^ (k + 1) = 2 * 2 ^ k)
      by (rewrite Z.pow_add_r by lia; change (2 ^ 1) with 2; ring).
    set (n := (2 * Zpos m + 2 ^ k) / 2 ^ (k + 1)).
    assert (Hn : 0 <= n <= 100).
    { unfold n. split.
      - apply Z.div_pos; lia.
      - assert (n' : (2 * Zpos m + 2 ^ k) / 2 ^ (k + 1) < 101).
        { apply Z.div_lt_upper_bound; lia. }
        lia. }
    destruct (n =? 0) eqn:En.
    + split; vm_compute; reflexivity.
    + apply float_of_small. exact Hn.
  - rewrite FloatAxioms.leb_spec, E, Prim2SF_hundred in H100. discriminate H100.
Qed.

End Percentage.

Section PercentageRange.

Import Binary64 Orders.
Local Open Scope Z_scope.

Lemma SF64mul_nonneg (mx : positive) (ex : Z) (my : positive) (ey : Z) :
  in_format (Zpos mx) ex -> in_format (Zpos my) ey ->
  SFleb (S754_zero false)
        (SF64mul (S754_finite false mx ex) (S754_finite false my ey)) = true.
Proof.
  intros Hx Hy. unfold SF64mul, SFmul. cbn [xorb].
  apply round_nonneg with (x := Fv (Zpos (mx * my)) (ex + ey)).
  - apply located_exact. lia.
  - apply mul_fine; assumption.
Qed.

Lemma SF64div_nonneg (mx : positive) (ex : Z) (my : positive) (ey : Z) :
  SFleb (S754_zero false)
        (SF64div (S754_finite false mx ex) (S754_finite false my ey)) = true.
Proof.
  unfold SF64div, SFdiv. cbn [xorb].
  pose proof (div_core_located mx ex my ey) as H.
  destruct (SFdiv_core_binary prec emax (Zpos mx) ex (Zpos my) ey)
    as [[q e'] l].
  destruct H as [Hloc Hfine].
  exact (round_nonneg Hloc Hfine).
Qed.

(** A zero of either sign lies within 0 and 100. *)
Lemma zero_in_range (x : float) (s : bool) :
  Prim2SF x = S754_zero s ->
  (0 <=? x)%float = true /\ (x <=? 100)%float = true.
Proof.
  intro E. rewrite !FloatAxioms.leb_spec, E, Prim2SF_zero, Prim2SF_hundred.
  split; reflexivity.
Qed.

(** [Math.round] returns a zero as it is. *)
Lemma Math_round_zero (x : float) (s : bool) :
  Prim2SF x = S754_zero s -> Math_round x = x.
Proof. intro E. unfold Math_round. rewrite E. reflexivity. Qed.

(** The share of a discount in the sum of a subtotal and that discount,
    as the code computes it, lies within 0 and 100 when neither is below
    zero and the discount is not an infinity. *)
Lemma percentage_in_range (s d : float) :
  (0 <=? d)%float = true -> (0 <=? s)%float = true ->
  (d <? infinity)%float = true ->
  let dp := if gtb (s + d) 0 then Math_round (d / (s + d) * 100) else 0%float in
  (0 <=? dp)%float = true /\ (dp <=? 100)%float = true.
Proof.
  intros Hd Hs Hfin. unfold gtb. cbv zeta.
  destruct (0 <? s + d)%float eqn:Ho; [|split; vm_compute; reflexivity].
  assert (Hzero : forall sq, Prim2SF (d / (s + d)) = S754_zero sq ->
            (0 <=? Math_round (d / (s + d) * 100))%float = true /\
            (Math_round (d / (s + d) * 100) <=? 100)%float = true).
  { intros sq Eq.
    assert (Ex : Prim2SF (d / (s + d) * 100) = S754_zero sq).
    { rewrite FloatAxioms.mul_spec, Eq, Prim2SF_hundred. cbn. destruct sq; reflexivity. }
    rewrite (Math_round_zero _ Ex). exact (zero_in_range _ Ex). }
  pose proof (FloatAxioms.div_spec d (s + d)) as Hq.
  destruct (nonneg_cases Hd) as [[sd Ed] | [(md & ed & Ed) | Ed]].
  - (* a zero discount *)
    destruct (positive_cases Ho) as [(mo & eo & Eo) | Eo];
      rewrite Ed, Eo in Hq; cbn in Hq; exact (Hzero _ Hq).
  - destruct (positive_cases Ho) as [(mo & eo & Eo) | Eo].
    + (* both finite *)
      destruct (Prim2SF_in_format d Ed) as [Fd _].
      destruct (Prim2SF_in_format (s + d) Eo) as [Fo _].
      assert (Hle : (Fv (Zpos md) ed <= Fv (Zpos mo) eo)%Q).
      { apply (SFleb_pos Fd Fo).
        pose proof (FloatAxioms.add_spec s d) as Ha. rewrite Eo, Ed in Ha.
        destruct (nonneg_cases Hs) as [[ss Es] | [(ms & es & Es) | Es]];
          rewrite Es in Ha.
        - cbn in Ha. rewrite Ha. apply (SFleb_pos Fd Fd). apply Qle_refl.
        - rewrite Ha. apply SF64add_lower. exact Fd.
        - cbn in Ha. discriminate Ha. }
      rewrite Ed, Eo in Hq.
      pose proof (SF64div_upper Hle) as Hup.
      pose proof (SF64div_nonneg md ed mo eo) as Hlo.
      rewrite <- Hq in Hup, Hlo.
      destruct (Prim2SF (d / (s + d))) as [sq | sq | | sq mq eq] eqn:Eq.
      * exact (Hzero sq eq_refl).
      * destruct sq; discriminate.
      * discriminate.
      * destruct sq; [discriminate|].
        destruct (Prim2SF_in_format (d / (s + d)) Eq) as [Fq _].
        apply Math_round_range.
        -- rewrite FloatAxioms.leb_spec, FloatAxioms.mul_spec, Eq, Prim2SF_zero,
             Prim2SF_hundred.
           apply SF64mul_nonneg; [exact Fq | exact hundred_in_format].
        -- rewrite FloatAxioms.leb_spec, FloatAxioms.mul_spec, Eq, Prim2SF_hundred.
           apply SF64mul_upper;
             [exact Fq | exact hundred_in_format | exact hundred_in_format
             | lia |].
           apply (SFleb_pos Fq one_in_format) in Hup.
           rewrite Fv_one in Hup. rewrite Fv_hundred.
           nra.
    + rewrite Ed, Eo in Hq. cbn in Hq. exact (Hzero _ Hq).
  - rewrite FloatAxioms.ltb_spec, Ed in Hfin. vm_compute in Hfin.
    discriminate Hfin.
Qed.

(** A number at or below zero is not above zero. *)
Lemma leb_zero_not_gtb (x : float) :
  (x <=? 0)%float = true -> gtb x 0 = false.
Proof.
  unfold gtb. rewrite FloatAxioms.leb_spec, FloatAxioms.ltb_spec, Prim2SF_zero.
  destruct (Prim2SF x) as [s | [|] | | [|] m e]; intro H;
    try discriminate H; reflexivity.
Qed.

End PercentageRange.

Section LowerBounds.

Import Binary64 Orders.
Local Open Scope Z_scope.

(** A number at or below zero is a zero, a negative number or minus
    infinity. *)
Lemma nonpos_cases (x : float) :
  (x <=? 0)%float = true ->
  (exists s, Prim2SF x = S754_zero s) \/
  (exists m e, Prim2SF x = S754_finite true m e) \/
  Prim2SF x = S754_infinity true.
Proof.
  rewrite FloatAxioms.leb_spec, Prim2SF_zero.
  destruct (Prim2SF x) as [s | [|] | | [|] m e]; intro H;
    try discriminate H; eauto.
Qed.

(** What is wrapped up with the sign of a negative number is not above
    zero. *)
Lemma pack_true_not_positive (M e : Z) :
  0 <= M -> SFltb (S754_zero false) (pack true M e) = false.
Proof.
  intro HM. unfold pack. destruct M as [|p|p]; [reflexivity| |lia].
  destruct (Zpos p =? 2 ^ 53); [destruct (e + 1 <=? 971) | destruct (e <=? 971)];
    reflexivity.
Qed.

Lemma round_true_not_positive (m : Z) (l : location) (e : Z) (x : Q) :
  located_at m l e x ->
  e <= fexp64 (Zdigits2 m + e) ->
  SFltb (S754_zero false) (binary_round_aux prec emax true m e l) = false.
Proof.
  intros Hloc Hfine.
  destruct (round_aux_cases true Hloc Hfine)
    as (m' & e' & ((Hm & _) & _) & _ & _ & [-> | [_ ->]]);
    apply pack_true_not_positive; lia.
Qed.

Lemma binary_round_true_not_positive (M : positive) (ez : Z) :
  SFltb (S754_zero false) (binary_round prec emax true M ez) = false.
Proof.
  destruct (binary_round_located true M ez) as (mz & e2 & -> & _ & Hfine).
  apply round_true_not_positive with (x := Fv (Zpos mz) e2);
    [apply located_exact; lia | exact Hfine].
Qed.

(** The sum of two negative numbers is not above zero. *)
Lemma SF64add_negatives (mx : positive) (ex : Z) (my : positive) (ey : Z) :
  SFltb (S754_zero false)
        (SF64add (S754_finite true mx ex) (S754_finite true my ey)) = false.
Proof.
  unfold SF64add, SFadd. cbn [cond_Zopp].
  destruct (shl_align mx ex (Z.min ex ey)) as [mx' ex'].
  destruct (shl_align my ey (Z.min ex ey)) as [my' ey'].
  cbn [fst].
  change (- Zpos mx' + - Zpos my') with (Zneg (mx' + my')).
  unfold binary_normalize. apply binary_round_true_not_positive.
Qed.

(** The sum of a negative and a positive number, when it is above zero,
    is at most the positive one. *)
Lemma SF64add_mixed (mx : positive) (ex : Z) (my : positive) (ey : Z) :
  in_format (Zpos my) ey -> ey <= 971 ->
  SFltb (S754_zero false)
        (SF64add (S754_finite true mx ex) (S754_finite false my ey)) = true ->
  SFleb (SF64add (S754_finite true mx ex) (S754_finite false my ey))
        (S754_finite false my ey) = true.
Proof.
  intros Hy Hey. unfold SF64add, SFadd. cbn [cond_Zopp].
  pose proof (shl_align_spec mx ex (Z.min ex ey)) as Hx.
  pose proof (shl_align_spec my ey (Z.min ex ey)) as Hy'.
  destruct (shl_align mx ex (Z.min ex ey)) as [mx' ex'].
  destruct (shl_align my ey (Z.min ex ey)) as [my' ey'].
  destruct Hx as [Hex' Hmx']. destruct Hy' as [Hey' Hmy'].
  cbn [fst].
  remember (- Zpos mx' + Zpos my') as S eqn:ES.
  unfold binary_normalize. destruct S as [|P|P].
  - intro H. discriminate H.
  - intros _.
    destruct (binary_round_located false P (Z.min ex ey))
      as (mz & e2 & -> & Hv & Hfine).
    apply round_upper with (x := Fv (Zpos mz) e2).
    + apply located_exact. lia.
    + exact Hfine.
    + exact Hy.
    + exact Hey.
    + rewrite Hv.
      assert (Hle : Zpos P <= Zpos my') by lia.
      apply (Fv_le (Zpos P) (Zpos my') (Z.min ex ey)) in Hle.
      assert (Hmy : (Fv (Zpos my') (Z.min ex ey) == Fv (Zpos my) ey)%Q).
      { rewrite Hmy', Fv_shift by lia.
        replace (Z.min ex ey + (ey - ey')) with ey by lia. reflexivity. }
      rewrite <- Hmy. exact Hle.
  - rewrite binary_round_true_not_positive. intro H. discriminate H.
Qed.

(** The quotient of a positive number by one that is not larger is at
    least one. *)
Lemma SF64div_lower (mx : positive) (ex : Z) (my : positive) (ey : Z) :
  (Fv (Zpos my) ey <= Fv (Zpos mx) ex)%Q ->
  SFleb (S754_finite false (2 ^ 52) (-52))
        (SF64div (S754_finite false mx ex) (S754_finite false my ey)) = true.
Proof.
  intro Hle. unfold SF64div, SFdiv. cbn [xorb].
  pose proof (div_core_located mx ex my ey) as H.
  destruct (SFdiv_core_binary prec emax (Zpos mx) ex (Zpos my) ey)
    as [[q e'] l].
  destruct H as [Hloc Hfine].
  apply round_lower with (x := (Fv (Zpos mx) ex / Fv (Zpos my) ey)%Q).
  - exact Hloc.
  - exact Hfine.
  - exact one_in_format.
  - rewrite Fv_one.
    pose proof (Fv_pos ey (m := Zpos my) ltac:(lia)) as Hypos.
    apply Qle_shift_div_l; [exact Hypos|]. lra.
Qed.

Lemma SF64mul_lower (mx : positive) (ex : Z) (my : positive) (ey : Z)
    (ma : positive) (ea : Z) :
  in_format (Zpos mx) ex -> in_format (Zpos my) ey ->
  in_format (Zpos ma) ea ->
  (Fv (Zpos ma) ea <= Fv (Zpos mx) ex * Fv (Zpos my) ey)%Q ->
  SFleb (S754_finite false ma ea)
        (SF64mul (S754_finite false mx ex) (S754_finite false my ey)) = true.
Proof.
  intros Hx Hy Ha Hle.
  unfold SF64mul, SFmul. cbn [xorb].
  apply round_lower with (x := Fv (Zpos (mx * my)) (ex + ey)).
  - apply located_exact. lia.
  - apply mul_fine; assumption.
  - exact Ha.
  - rewrite Pos2Z.inj_mul, <- Fv_mul. exact Hle.
Qed.

(** A number that is at least 100 is positive or plus infinity. *)
Lemma above_hundred_cases (x : float) :
  (100 <=? x)%float = true ->
  (exists m e, Prim2SF x = S754_finite false m e) \/
  Prim2SF x = S754_infinity false.
Proof.
  rewrite FloatAxioms.leb_spec, Prim2SF_hundred.
  destruct (Prim2SF x) as [s | [|] | | [|] m e]; intro H;
    try discriminate H; eauto.
Qed.

(** The float of a whole number from 100 to [2^53] is at least 100. *)
Lemma float_of_large (n : Z) :
  100 <= n <= 2 ^ 53 -> (100 <=? float_of_Z n)%float = true.
Proof.
  intros [Hlo Hhi]. destruct n as [|p|p]; try lia.
  unfold float_of_Z.
  rewrite FloatAxioms.leb_spec, Prim2SF_hundred, of_uint63_spec,
    Uint63.of_Z_spec.
  rewrite Z.mod_small
    by (split; [lia | change wB with (2 ^ 63); lia]).
  unfold binary_normalize.
  destruct (binary_round_located false p 0) as (mz & e2 & -> & Hv & Hfine).
  apply round_lower with (x := Fv (Zpos mz) e2).
  - apply located_exact. lia.
  - exact Hfine.
  - exact hundred_in_format.
  - rewrite Hv, Fv_hundred. unfold Fv.
    change (bpow 0) with 1%Q. rewrite Qmult_1_r.
    change 100%Q with (inject_Z 100). rewrite <- Zle_Qle. exact Hlo.
Qed.

(** [Math.round] keeps a number at or above 100. *)
Lemma Math_round_lower (x : float) :
  (100 <=? x)%float = true -> (100 <=? Math_round x)%float = true.
Proof.
  intro H100. unfold Math_round.
  destruct (above_hundred_cases H100) as [(m & e & E) | E]; rewrite E;
    [|exact H100].
  destruct (0 <=? e) eqn:Ee; [exact H100|].
  apply Z.leb_gt in Ee.
  destruct (Prim2SF_in_format x E) as [Hf _].
  rewrite FloatAxioms.leb_spec, E, Prim2SF_hundred in H100.
  apply (SFleb_pos hundred_in_format Hf) in H100.
  rewrite Fv_hundred in H100.
  set (k := - e) in *.
  assert (Hk : 0 < k) by (unfold k; lia).
  assert (Hm : 100 * 2 ^ k <= Zpos m).
  { rewrite Zle_Qle, inject_Z_mult.
    rewrite <- (bpow_Z (k := k)) by lia.
    unfold Fv in H100.
    pose proof (bpow_pos k) as Hp.
    assert (Hone : (bpow e * bpow k == 1)%Q).
    { rewrite <- bpow_add. replace (e + k) with 0 by (unfold k; lia).
      reflexivity. }
    assert (H' : (100 * bpow k
                  <= inject_Z (Zpos m) * bpow e * bpow k)%Q).
    { apply Qmult_le_compat_r; [exact H100 | apply Qlt_le_weak; exact Hp]. }
    rewrite <- Qmult_assoc, Hone, Qmult_1_r in H'. exact H'. }
  assert (Hpow : 0 < 2 ^ k) by (apply Z.pow_pos_nonneg; lia).
  assert (Hpow2 : 2 <= 2 ^ k).
  { change 2 with (2 ^ 1) at 1. apply Z.pow_le_mono_r; lia. }
  replace (1 - e) with (k + 1) by (unfold k; lia).
  assert (Hpow1 : 2 ^ (k + 1) = 2 * 2 ^ k)
    by (rewrite Z.pow_add_r by lia; change (2 ^ 1) with 2; ring).
  destruct Hf as ((_ & Hm53) & _).
  set (n := (2 * Zpos m + 2 ^ k) / 2 ^ (k + 1)).
  assert (Hn : 100 <= n <= 2 ^ 53).
  { unfold n. split.
    - apply Z.div_le_lower_bound; lia.
    - assert (n' : (2 * Zpos m + 2 ^ k) / 2 ^ (k + 1) < 2 ^ 53 + 1).
      { apply Z.div_lt_upper_bound; [lia|]. rewrite Hpow1. nia. }
      lia. }
  destruct (n =? 0) eqn:En; [apply Z.eqb_eq in En; lia|].
  apply float_of_large. exact Hn.
Qed.

(** With a subtotal at or below zero and a finite discount, an original
    price above zero is a finite number at most the discount. *)
Lemma sum_below_discount (s d : float) :
  (s <=? 0)%float = true -> (0 <? s + d)%float = true ->
  (d <? infinity)%float = true ->
  exists (md : positive) (ed : Z) (mo : positive) (eo : Z),
    Prim2SF d = S754_finite false md ed /\
    Prim2SF (s + d) = S754_finite false mo eo /\
    (Fv (Zpos mo) eo <= Fv (Zpos md) ed)%Q.
Proof.
  intros Hs Ho Hfin.
  rewrite FloatAxioms.ltb_spec in Hfin, Ho. rewrite Prim2SF_zero in Ho.
  change (Prim2SF infinity) with (S754_infinity false) in Hfin.
  rewrite FloatAxioms.add_spec in Ho.
  pose proof (FloatAxioms.add_spec s d) as Ha.
  destruct (Prim2SF d) as [sd | sd | | sd md ed] eqn:Ed.
  - exfalso.
    destruct (nonpos_cases Hs) as [[ss Es] | [(ms & es & Es) | Es]];
      rewrite Es in Ho; [destruct ss, sd | |]; discriminate Ho.
  - exfalso. destruct sd; [|discriminate Hfin].
    destruct (nonpos_cases Hs) as [[ss Es] | [(ms & es & Es) | Es]];
      rewrite Es in Ho; discriminate Ho.
  - discriminate Hfin.
  - destruct (Prim2SF_in_format d Ed) as [Fd Hed].
    destruct (nonpos_cases Hs) as [[ss Es] | [(ms & es & Es) | Es]];
      rewrite Es in Ho, Ha.
    + cbn in Ho, Ha. destruct sd; [discriminate Ho|].
      exists md, ed, md, ed. repeat split; try assumption. apply Qle_refl.
    + destruct sd.
      * rewrite SF64add_negatives in Ho. discriminate Ho.
      * pose proof (SF64add_mixed ms es Fd Hed Ho) as Hle.
        rewrite <- Ha in Ho, Hle.
        destruct (Prim2SF (s + d)) as [so | so | | so mo eo] eqn:Eo;
          try discriminate Ho.
        -- destruct so; discriminate.
        -- destruct so; [discriminate Ho|].
           destruct (Prim2SF_in_format (s + d) Eo) as [Fo _].
           exists md, ed, mo, eo. repeat split; try reflexivity.
           apply (SFleb_pos Fo Fd). exact Hle.
    + exfalso. cbn in Ho. discriminate Ho.
Qed.

(** With a subtotal at or below zero, a finite discount and an original
    price above zero, the percentage is 100 or more. *)
Lemma percentage_not_clamped (s d : float) :
  (s <=? 0)%float = true -> gtb (s + d) 0 = true ->
  (d <? infinity)%float = true ->
  (100 <=? Math_round (d / (s + d) * 100))%float = true.
Proof.
  unfold gtb. intros Hs Ho Hfin.
  destruct (sum_below_discount Hs Ho Hfin)
    as (md & ed & mo & eo & Ed & Eo & Hle).
  pose proof (SF64div_lower Hle) as Hq.
  rewrite <- Ed, <- Eo, <- FloatAxioms.div_spec in Hq.
  assert (Hx : (100 <=? d / (s + d) * 100)%float = true).
  { rewrite FloatAxioms.leb_spec, FloatAxioms.mul_spec, !Prim2SF_hundred.
    destruct (Prim2SF (d / (s + d))) as [sq | sq | | sq mq eq] eqn:Eq;
      try discriminate Hq.
    - destruct sq; [discriminate Hq | reflexivity].
    - destruct sq; [discriminate Hq|].
      destruct (Prim2SF_in_format (d / (s + d)) Eq) as [Fq _].
      apply SF64mul_lower;
        [exact Fq | exact hundred_in_format | exact hundred_in_format |].
      apply (SFleb_pos one_in_format Fq) in Hq.
      rewrite Fv_one in Hq. rewrite Fv_hundred. nra. }
  apply Math_round_lower. exact Hx.
Qed.

End LowerBounds.

(** ** The price breakdown *)

Section PriceBreakdown.

Import Binary64 Orders.
Local Open Scope float_scope.

(** The loop of [reduce] adds the quantities to its accumulator, one after
    the other. *)
Lemma reduce_quantity (l : list OrderItem) (a : float) :
  reduce (fun sum item => sum + quantity item) a l = sum_quantity_from a l.
Proof.
  unfold reduce. revert a. induction l as [|item rest IH]; intro a; simpl.
  - reflexivity.
  - apply IH.
Qed.

(** What a run of [calculatePriceInfo] returns, field by field; the
    context is handed back as it was received, and the one division of the
    code is evaluated under the test [originalPrice > 0] only. *)
Lemma calculatePriceInfo_run (order : Order) (env : Env) :
  let r := calculatePriceInfo order env in
  let info := value r in
  context r = env /\
  shipping info =
    (if String.eqb (paymentMethod order) "COD" then 50 else 0) /\
  subtotal info = totalAmount order - shipping info /\
  totalItems info =
    reduce (fun sum item => sum + quantity item) 0 (items order) /\
  discount info = extraCharge env * totalItems info /\
  originalPrice info = subtotal info + discount info /\
  discountPercentage info =
    (if gtb (originalPrice info) 0
     then Math_round (discount info / originalPrice info * 100)
     else 0) /\
  divisions r =
    (if gtb (originalPrice info) 0
     then [(discount info, originalPrice info)]
     else []).
Proof.
  unfold calculatePriceInfo, bind, read_extraCharge, js_div, ret. cbv zeta.
  cbn [value context divisions].
  destruct (gtb _ 0) eqn:E; cbn [value context divisions app
    shipping subtotal totalItems discount originalPrice discountPercentage];
    repeat split.
Qed.

(** C1.  For every order and every value of the extra charge per item, the
    computation returns a record in which [shipping] is 50 when the payment
    method is ["COD"] and 0 otherwise, [subtotal] is the total amount minus
    the shipping, [totalItems] is the sum of the quantities of the items (0
    for no item), [discount] is the extra charge times [totalItems], and
    [originalPrice] is [subtotal] plus [discount]; the operations are those
    of binary64 numbers, the ones of the code. *)
Theorem calculatePriceInfo_fields :
  forall (order : Order) (env : Env),
  let info := value (calculatePriceInfo order env) in
  shipping info =
    (if String.eqb (paymentMethod order) "COD" then 50 else 0) /\
  subtotal info = totalAmount order - shipping info /\
  totalItems info = sum_quantity (items order) /\
  (items order = [] -> totalItems info = 0) /\
  discount info = extraCharge env * totalItems info /\
  originalPrice info = subtotal info + discount info.
Proof.
  intros order env.
  destruct (calculatePriceInfo_run order env)
    as (_ & Hship & Hsub & Hitems & Hdisc & Horig & _).
  cbv zeta. repeat split; try assumption.
  - rewrite Hitems. apply reduce_quantity.
  - intro H. rewrite Hitems, H. reflexivity.
Qed.

Lemma calculatePriceInfo_fields_witness :
  totalItems (value (calculatePriceInfo (mkOrder 120 "ONLINE" [])
                       (mkEnv [] false None None 30))) = 0.
Proof.
  destruct (calculatePriceInfo_fields (mkOrder 120 "ONLINE" [])
              (mkEnv [] false None None 30))
    as (_ & _ & _ & Hempty & _).
  apply Hempty. reflexivity.
Defined.

(** C3.  The computation returns a record for every input, and its only
    division is evaluated in the branch where [originalPrice > 0]: every
    division of a run has a divisor above zero, and whenever
    [originalPrice <= 0], or [originalPrice > 0] fails for another reason
    (NaN), the record carries [discountPercentage = 0] and no division has
    been evaluated. *)
Theorem calculatePriceInfo_never_fails :
  forall (order : Order) (env : Env),
  let r := calculatePriceInfo order env in
  let info := value r in
  Forall (fun dv => dv = (discount info, originalPrice info) /\
                    gtb (snd dv) 0 = true) (divisions r) /\
  discountPercentage info =
    (if gtb (originalPrice info) 0
     then Math_round (discount info / originalPrice info * 100)
     else 0) /\
  ((originalPrice info <=? 0) = true ->
   discountPercentage info = 0 /\ divisions r = []) /\
  (gtb (originalPrice info) 0 = false ->
   discountPercentage info = 0 /\ divisions r = []).
Proof.
  intros order env.
  destruct (calculatePriceInfo_run order env)
    as (_ & _ & _ & _ & _ & _ & Hpct & Hdiv).
  cbv zeta.
  assert (Hno : gtb (originalPrice (value (calculatePriceInfo order env))) 0
                = false ->
                discountPercentage (value (calculatePriceInfo order env)) = 0
                /\ divisions (calculatePriceInfo order env) = []).
  { intro H. rewrite Hpct, Hdiv, H. split; reflexivity. }
  split; [|split; [exact Hpct|split; [|exact Hno]]].
  - rewrite Hdiv.
    destruct (gtb (originalPrice (value (calculatePriceInfo order env))) 0)
      eqn:E; constructor; [|constructor].
    split; [reflexivity | exact E].
  - intro Hle. apply Hno. apply leb_zero_not_gtb. exact Hle.
Qed.

Lemma calculatePriceInfo_never_fails_witness :
  discountPercentage
    (value (calculatePriceInfo (mkOrder 50 "COD" [])
              (mkEnv [] false None None 30))) = 0 /\
  divisions (calculatePriceInfo (mkOrder 50 "COD" [])
               (mkEnv [] false None None 30)) = [].
Proof.
  destruct (calculatePriceInfo_never_fails (mkOrder 50 "COD" [])
              (mkEnv [] false None None 30))
    as (_ & _ & Hzero & _).
  apply Hzero. vm_compute. reflexivity.
Defined.

(** C6.  The worked example: total amount 450, cash on delivery, items of
    quantities 2 and 1, extra charge 30 per item.  The one division is
    that of 90 by 490. *)
Theorem calculatePriceInfo_example :
  forall (p1 p2 : float) (os : list Order) (l : bool)
         (err ex : option string),
  calculatePriceInfo
    (mkOrder 450 "COD" [mkItem 2 p1; mkItem 1 p2])
    (mkEnv os l err ex 30)
  = mkRun {| originalPrice := 490;
             discount := 90;
             discountPercentage := 18;
             subtotal := 400;
             shipping := 50;
             totalItems := 3 |}
          (mkEnv os l err ex 30)
          [(90, 490)].
Proof.
  intros. vm_compute. reflexivity.
Qed.

(** [Math.round] on binary64 numbers: a tie goes up, also below zero; the
    number just under 14.5 that the code gets for 29/200*100 goes down; a
    result of zero keeps the sign of its argument. *)
Example Math_round_ties :
  Math_round 2.5 = 3 /\ Math_round (-2.5) = -2 /\
  Math_round 1.5 = 2 /\ Math_round (-0.5) = neg_zero /\
  Math_round (29 / 200 * 100) = 14 /\ Math_round 0.25 = 0 /\
  Math_round infinity = infinity /\ Math_round nan = nan.
Proof. vm_compute. repeat split. Qed.

(** Rounding shows in the record: for a total of 171 paid online with one
    item and an extra charge of 29, the quotient 29/200 times 100 lies just
    under 14.5 and the percentage is 14; and 50.99 + 30 is not 80.99. *)
Example calculatePriceInfo_rounds :
  discountPercentage
    (value (calculatePriceInfo (mkOrder 171 "ONLINE" [mkItem 1 1])
              (mkEnv [] false None None 29))) = 14 /\
  (29 / 200 * 100 <? 14.5) = true /\
  (originalPrice
     (value (calculatePriceInfo (mkOrder (5099 / 100) "ONLINE" [mkItem 1 1])
               (mkEnv [] false None None 30))) =? 8099 / 100) = false.
Proof. vm_compute. repeat split. Qed.

(** The statement of C7 fails when the discount overflows: with an extra
    charge of 1e308 (the binary64 number written out below) and one item of
    quantity 10 in an order of 100 paid online, [discount] and
    [originalPrice] are both Infinity, [discount >= 0] and [subtotal >= 0]
    hold, and the percentage is NaN, which is neither at least 0 nor at
    most 100. *)
Lemma discountPercentage_overflow_counterexample :
  let order := mkOrder 100 "ONLINE" [mkItem 10 1] in
  let env := mkEnv [] false None None 0x1.1ccf385ebc8ap+1023 in
  let info := value (calculatePriceInfo order env) in
  (0 <=? extraCharge env) = true /\
  (0 <=? 10) = true /\
  (shipping info <=? totalAmount order) = true /\
  (0 <=? discount info) = true /\
  (0 <=? subtotal info) = true /\
  discount info = infinity /\
  originalPrice info = infinity /\
  discountPercentage info = nan /\
  (0 <=? discountPercentage info) = false /\
  (discountPercentage info <=? 100) = false /\
  ~ ((0 <=? discountPercentage info) = true /\
     (discountPercentage info <=? 100) = true).
Proof.
  vm_compute. repeat split. intros [H _]. discriminate H.
Qed.

(** With a subtotal that is not below zero, an infinite discount makes the
    original price infinite. *)
Lemma add_infinity (s : float) :
  (0 <=? s) = true -> s + infinity = infinity.
Proof.
  intro Hs. apply Prim2SF_inj.
  rewrite FloatAxioms.add_spec.
  destruct (nonneg_cases Hs) as [[ss E] | [(m & e & E) | E]]; rewrite E;
    reflexivity.
Qed.

(** C7, amended.  Whenever the discount and the subtotal of the returned
    record are not below zero, its discount percentage lies between 0 and
    100 if the discount is finite, and is NaN if the discount is
    Infinity. *)
Theorem discountPercentage_bounds_finite :
  forall (order : Order) (env : Env),
  let info := value (calculatePriceInfo order env) in
  (0 <=? discount info) = true ->
  (0 <=? subtotal info) = true ->
  ((discount info <? infinity) = true ->
   (0 <=? discountPercentage info) = true /\
   (discountPercentage info <=? 100) = true) /\
  (discount info = infinity -> discountPercentage info = nan).
Proof.
  intros order env.
  destruct (calculatePriceInfo_run order env)
    as (_ & _ & _ & _ & _ & Horig & Hpct & _).
  cbv zeta. intros Hd Hs. rewrite Hpct, Horig. split.
  - intro Hfin. apply percentage_in_range; assumption.
  - intro Hinf. rewrite Hinf, (add_infinity Hs). vm_compute. reflexivity.
Qed.

Lemma discountPercentage_bounds_finite_witness :
  (0 <=? 18) = true /\ (18 <=? 100) = true.
Proof.
  refine (proj1 (@discountPercentage_bounds_finite
                   (mkOrder 450 "COD" [mkItem 2 1; mkItem 1 1])
                   (mkEnv [] false None None 30) _ _) _);
    vm_compute; reflexivity.
Defined.

(** C9.  The record returned depends on the order and on the extra charge
    only, and a call hands the context back unchanged: two calls with the
    same order and the same extra charge return the same record and
    evaluate the same division, and two calls in a row return that record
    twice and leave the context as it was. *)
Theorem calculatePriceInfo_deterministic :
  forall (order : Order) (env1 env2 : Env),
  extraCharge env1 = extraCharge env2 ->
  exists (info : PriceInfo) (ds : list (float * float)),
    calculatePriceInfo order env1 = mkRun info env1 ds /\
    calculatePriceInfo order env2 = mkRun info env2 ds /\
    (a <- calculatePriceInfo order ;;
     b <- calculatePriceInfo order ;;
     ret (a, b)) env1 = mkRun (info, info) env1 (ds ++ ds ++ []).
Proof.
  intros order env1 env2 Hextra.
  assert (Hshape : forall env,
            calculatePriceInfo order env =
            mkRun (value (calculatePriceInfo order env)) env
                  (divisions (calculatePriceInfo order env))).
  { intro env. unfold calculatePriceInfo, bind, read_extraCharge, js_div, ret.
    cbv zeta. destruct (gtb _ 0); reflexivity. }
  assert (Hsame : calculatePriceInfo order env2 =
            mkRun (value (calculatePriceInfo order env1)) env2
                  (divisions (calculatePriceInfo order env1))).
  { unfold calculatePriceInfo, bind, read_extraCharge, js_div, ret.
    cbv zeta. cbn [value context divisions]. rewrite <- Hextra.
    destruct (gtb _ 0); reflexivity. }
  exists (value (calculatePriceInfo order env1)),
         (divisions (calculatePriceInfo order env1)).
  split; [apply Hshape|]. split; [exact Hsame|].
  unfold bind at 1 2. rewrite (Hshape env1).
  cbn [value context divisions]. rewrite (Hshape env1).
  cbn [value context divisions]. reflexivity.
Qed.

Lemma calculatePriceInfo_deterministic_witness :
  exists (info : PriceInfo) (ds : list (float * float)),
    calculatePriceInfo (mkOrder 450 "COD" [mkItem 2 199; mkItem 1 52])
      (mkEnv [] true None None 30)
      = mkRun info (mkEnv [] true None None 30) ds /\
    calculatePriceInfo (mkOrder 450 "COD" [mkItem 2 199; mkItem 1 52])
      (mkEnv [] false (Some "x"%string) None 30)
      = mkRun info (mkEnv [] false (Some "x"%string) None 30) ds.
Proof.
  destruct (@calculatePriceInfo_deterministic
              (mkOrder 450 "COD" [mkItem 2 199; mkItem 1 52])
              (mkEnv [] true None None 30)
              (mkEnv [] false (Some "x"%string) None 30)
              eq_refl)
    as (info & ds & H1 & H2 & _).
  exists info, ds. split; assumption.
Defined.

End PriceBreakdown.

(** ** The attempt guard of the Login page *)

Section GuardFacts.

Import JS Login.
Local Open Scope Z_scope.

Ltac tests_to_Z :=
  repeat match goal with
  | H : (_ =? _) = true |- _ => apply Z.eqb_eq in H
  | H : (_ =? _) = false |- _ => apply Z.eqb_neq in H
  | H : (_ <=? _) = true |- _ => apply Z.leb_le in H
  | H : (_ <=? _) = false |- _ => apply Z.leb_gt in H
  | H : (_ <? _) = true |- _ => apply Z.ltb_lt in H
  | H : (_ <? _) = false |- _ => apply Z.ltb_ge in H
  end.

Ltac split_tests :=
  repeat (match goal with
          | |- context [if ?b then _ else _] =>
              let E := fresh "E" in destruct b eqn:E
          | |- context [negb ?b] =>
              let E := fresh "E" in destruct b eqn:E
          | |- context [Bool.eqb ?a ?b] =>
              let E := fresh "E" in destruct (Bool.eqb a b) eqn:E
          end; cbn).

Ltac plain t :=
  lazymatch t with
  | context [if _ then _ else _] => fail
  | context [match _ with _ => _ end] => fail
  | _ => idtac
  end.

Ltac split_atoms :=
  repeat (match goal with
          | |- context [Z.eqb ?a ?b] =>
              plain a; plain b;
              let E := fresh "E" in destruct (Z.eqb a b) eqn:E
          | |- context [Z.leb ?a ?b] =>
              plain a; plain b;
              let E := fresh "E" in destruct (Z.leb a b) eqn:E
          | |- context [Z.ltb ?a ?b] =>
              plain a; plain b;
              let E := fresh "E" in destruct (Z.ltb a b) eqn:E
          end; cbn).

Ltac unfold_commit :=
  unfold commit, rateLimitEffect, countdownEffect, apply_updates,
    setIsBlocked, setBlockTimer, setLoginAttempts.

Ltac run_commits :=
  unfold_commit; cbn; rewrite ?Z.eqb_refl; cbn;
  split_atoms; tests_to_Z; try lia; try reflexivity.

(** With no dependency changed no effect runs. *)
Lemma commit_fixed (g : Guard) : deps g = cells g -> commit g = g.
Proof.
  destruct g as [c d iv]. simpl. intros ->.
  unfold commit. simpl. rewrite !Z.eqb_refl, Bool.eqb_reflx. reflexivity.
Qed.

Lemma deps_commit (g : Guard) : deps (commit g) = cells g.
Proof.
  unfold commit.
  destruct (negb _ || negb _); [destruct (countdownEffect _)|]; reflexivity.
Qed.

Local Opaque Z.eqb Z.leb Z.ltb.

(** Whatever the cells, the second commit does not change them again. *)
Lemma commit_twice_cells (g : Guard) :
  cells (commit (commit g)) = cells (commit g).
Proof.
  destruct g as [[la ib bt] [la' ib' bt'] iv].
  unfold_commit. cbn.
  destruct (la' =? la) eqn:E1, (Bool.eqb ib' ib) eqn:Eb,
    (bt' =? bt) eqn:E2, (5 <=? la) eqn:E3, ib, (0 <? bt) eqn:E4,
    (bt =? 0) eqn:E5; cbn.
  all: rewrite ?Z.eqb_refl; cbn; try reflexivity.
  all: split_tests; try reflexivity.
  all: tests_to_Z; lia.
Qed.

Lemma commit_thrice (g : Guard) :
  commit (commit (commit g)) = commit (commit g).
Proof.
  apply commit_fixed. rewrite deps_commit. symmetry.
  apply commit_twice_cells.
Qed.

(** The render loop is cut at a state that React would not render again. *)
Lemma settle_quiescent (g : Guard) : commit (settle g) = settle g.
Proof.
  unfold settle. simpl. rewrite !commit_thrice. reflexivity.
Qed.

Lemma settle_deps (g : Guard) : deps (settle g) = cells (settle g).
Proof.
  rewrite <- (settle_quiescent g) at 1. apply deps_commit.
Qed.

Lemma mount_active : mount = active 0.
Proof. vm_compute. reflexivity. Qed.

(** *** The events on a guard at rest *)

Lemma recordFailure_active (k : Z) :
  0 <= k < 4 -> recordFailure (active k) = active (k + 1).
Proof.
  intro Hk. unfold recordFailure, dispatch, settle, active, render_loop.
  run_commits.
Qed.

Lemma recordFailure_fifth : recordFailure (active 4) = lockedFor 300.
Proof. vm_compute. reflexivity. Qed.

Lemma recordSuccess_active (k : Z) :
  0 <= k <= 4 -> recordSuccess (active k) = active 0.
Proof.
  intro Hk. unfold recordSuccess, dispatch, settle, active, render_loop.
  run_commits.
Qed.

Lemma tick_locked (t : Z) :
  1 < t -> tick (lockedFor t) = Some (lockedFor (t - 1)).
Proof.
  intro Ht. unfold tick, dispatch, settle, lockedFor, render_loop.
  run_commits.
Qed.

Lemma tick_last : tick (lockedFor 1) = Some (active 0).
Proof. vm_compute. reflexivity. Qed.

Lemma tick_active (k : Z) : tick (active k) = None.
Proof. reflexivity. Qed.

(** The success path on a guard in a lockout: the count is cleared, the
    lockout and its timer stay. *)
Lemma recordSuccess_locked (t : Z) :
  1 <= t ->
  recordSuccess (lockedFor t) =
  {| cells := {| loginAttempts := 0; isBlocked := true; blockTimer := t |};
     deps := {| loginAttempts := 0; isBlocked := true; blockTimer := t |};
     interval := true |}.
Proof.
  intro Ht. unfold recordSuccess, dispatch, settle, lockedFor, render_loop.
  run_commits.
Qed.

Lemma at_rest_inv (g : Guard) : at_rest g -> guard_inv (cells g).
Proof.
  intros [k Hk | t Ht]; unfold guard_inv; cbn; repeat split;
    try lia; try discriminate.
Qed.

(** The guard of a page after a submission: untouched, or moved by one of
    the two paths behind the [isBlocked] test. *)
Lemma handleSubmit_guard (reply : Reply) (onLine : bool) (p : Page) :
  guard (handleSubmit reply onLine p) = guard p \/
  (isBlocked (cells (guard p)) = false /\
   (guard (handleSubmit reply onLine p) = recordSuccess (guard p) \/
    guard (handleSubmit reply onLine p) = recordFailure (guard p))).
Proof.
  unfold handleSubmit.
  destruct (isBlocked (cells (guard p))) eqn:Eb; [left; reflexivity|].
  destruct (validateForm p) as [newErrors ok].
  destruct ok; cbn; [|left; reflexivity].
  right. split; [reflexivity|].
  destruct reply; cbn; [left | right]; reflexivity.
Qed.

Lemma handleChange_guard (name : Field) (value : jsstring) (p : Page) :
  guard (handleChange name value p) = guard p.
Proof.
  unfold handleChange.
  destruct name, (email_error (errors p)), (password_error (errors p));
    reflexivity.
Qed.

Lemma reachable_at_rest (p : Page) : reachable p -> at_rest (guard p).
Proof.
  induction 1 as [| reply onLine p Hp IH | name value p Hp IH
                  | p p' Hp IH Htick].
  - cbn. rewrite mount_active. apply rest_active. lia.
  - destruct (handleSubmit_guard reply onLine p) as [-> | [Hb [-> | ->]]];
      [exact IH| |].
    + destruct IH as [k Hk | t Ht]; [|discriminate Hb].
      rewrite recordSuccess_active by exact Hk. apply rest_active. lia.
    + destruct IH as [k Hk | t Ht]; [|discriminate Hb].
      destruct (Z.eq_dec k 4) as [-> | Hne].
      * rewrite recordFailure_fifth. apply rest_locked. lia.
      * rewrite recordFailure_active by lia. apply rest_active. lia.
  - rewrite handleChange_guard. exact IH.
  - unfold handleTick in Htick.
    destruct (tick (guard p)) as [g|] eqn:Et; [|discriminate].
    injection Htick as <-. cbn.
    destruct IH as [k Hk | t Ht].
    + rewrite tick_active in Et. discriminate.
    + destruct (Z.eq_dec t 1) as [-> | Hne].
      * rewrite tick_last in Et. injection Et as <-. apply rest_active. lia.
      * rewrite tick_locked in Et by lia. injection Et as <-.
        apply rest_locked. lia.
Qed.

(** C2.  From the initial guard (no attempt counted, not blocked, timer
    at 0): after four failures the guard is not blocked; after the fifth it
    is blocked with 300 seconds remaining; after 300 firings of the timer
    it is not blocked and the attempt count is 0. *)
Theorem lockout_scenario :
  cells mount = initialCells /\
  blocked (failures 4 mount) = false /\
  blocked (failures 5 mount) = true /\
  remaining (failures 5 mount) = 300 /\
  exists g : Guard,
    ticks 300 (failures 5 mount) = Some g /\
    blocked g = false /\
    attemptCount g = 0.
Proof.
  split; [vm_compute; reflexivity|].
  split; [vm_compute; reflexivity|].
  split; [vm_compute; reflexivity|].
  split; [vm_compute; reflexivity|].
  exists (active 0).
  split; [vm_compute; reflexivity|].
  split; reflexivity.
Qed.

Lemma lockedOutPage_reachable : reachable lockedOutPage.
Proof.
  unfold lockedOutPage, filledPage. cbn [Nat.iter nat_rect].
  repeat apply reach_submit. repeat apply reach_change. apply reach_init.
Qed.

Lemma lockedOutPage_guard : guard lockedOutPage = lockedFor 300.
Proof. vm_compute. reflexivity. Qed.

(** The statement of C4 fails on a page in a lockout, which is reachable:
    there the success path clears the count and leaves the lockout and its
    timer in place, and a submission does not even get that far. *)
Lemma recordSuccess_locked_counterexample :
  reachable lockedOutPage /\
  cells (guard lockedOutPage) =
    {| loginAttempts := 5; isBlocked := true; blockTimer := 300 |} /\
  cells (recordSuccess (guard lockedOutPage)) =
    {| loginAttempts := 0; isBlocked := true; blockTimer := 300 |} /\
  cells (recordSuccess (guard lockedOutPage)) <> initialCells /\
  cells (guard (handleSubmit Resolved true lockedOutPage)) =
    {| loginAttempts := 5; isBlocked := true; blockTimer := 300 |}.
Proof.
  split; [apply lockedOutPage_reachable|].
  repeat split; try (vm_compute; reflexivity).
  vm_compute. discriminate.
Qed.

(** C4, amended.  On every reachable page the success path sets the
    attempt count to 0 and leaves [isBlocked] and [blockTimer] as they are;
    when the page is not blocked, which is the only case in which
    [handleSubmit] gets to it, the three cells are then 0, [false], 0. *)
Theorem recordSuccess_resets_when_not_blocked :
  forall p : Page,
  reachable p ->
  cells (recordSuccess (guard p)) =
    {| loginAttempts := 0;
       isBlocked := isBlocked (cells (guard p));
       blockTimer := blockTimer (cells (guard p)) |} /\
  (isBlocked (cells (guard p)) = false ->
   cells (recordSuccess (guard p)) = initialCells /\
   forall onLine : bool,
     snd (validateForm p) = true ->
     cells (guard (handleSubmit Resolved onLine p)) = initialCells).
Proof.
  intros p Hp. apply reachable_at_rest in Hp.
  assert (Hcells : cells (recordSuccess (guard p)) =
    {| loginAttempts := 0;
       isBlocked := isBlocked (cells (guard p));
       blockTimer := blockTimer (cells (guard p)) |}).
  { destruct Hp as [k Hk | t Ht].
    - rewrite recordSuccess_active by exact Hk. reflexivity.
    - rewrite recordSuccess_locked by lia. reflexivity. }
  split; [exact Hcells|].
  intro Hb.
  assert (Hzero : cells (recordSuccess (guard p)) = initialCells).
  { destruct Hp as [k Hk | t Ht]; [|discriminate Hb].
    rewrite recordSuccess_active by exact Hk. reflexivity. }
  split; [exact Hzero|].
  intros onLine Hok. unfold handleSubmit. rewrite Hb.
  destruct (validateForm p) as [newErrors ok]. cbn in Hok. subst ok.
  cbn. exact Hzero.
Qed.

Lemma recordSuccess_resets_when_not_blocked_witness :
  cells (recordSuccess
           (guard (handleSubmit (Rejected (lit "Invalid password")) true
                     filledPage)))
  = initialCells.
Proof.
  refine (proj1 (proj2 (@recordSuccess_resets_when_not_blocked
            (handleSubmit (Rejected (lit "Invalid password")) true
               filledPage) _) _)).
  - apply reach_submit. unfold filledPage.
    repeat apply reach_change. apply reach_init.
  - vm_compute. reflexivity.
Defined.

(** C5.  A submission made while the guard is blocked returns at once: no
    call of [login] is made and no cell of the page changes, the attempt
    count included. *)
Theorem handleSubmit_blocked_unchanged :
  forall (reply : Reply) (onLine : bool) (p : Page),
  isBlocked (cells (guard p)) = true ->
  handleSubmit reply onLine p = p /\
  calls (handleSubmit reply onLine p) = calls p /\
  loginAttempts (cells (guard (handleSubmit reply onLine p))) =
    loginAttempts (cells (guard p)).
Proof.
  intros reply onLine p Hb.
  assert (H : handleSubmit reply onLine p = p).
  { unfold handleSubmit. rewrite Hb. reflexivity. }
  rewrite H. repeat split.
Qed.

Lemma handleSubmit_blocked_unchanged_witness :
  handleSubmit (Rejected (lit "Invalid password")) true lockedOutPage
  = lockedOutPage.
Proof.
  refine (proj1 (@handleSubmit_blocked_unchanged
            (Rejected (lit "Invalid password")) true lockedOutPage _)).
  vm_compute. reflexivity.
Defined.

Lemma render_loop_two (n : nat) (g : Guard) :
  render_loop (S (S n)) g = commit (commit g).
Proof.
  induction n as [|n IH].
  - reflexivity.
  - change (render_loop (S (S (S n))) g)
      with (render_loop (S (S n)) (commit g)).
    change (render_loop (S (S n)) (commit g))
      with (render_loop (S n) (commit (commit g))).
    destruct n as [|n].
    + cbn. apply commit_thrice.
    + change (render_loop (S (S n)) (commit (commit g)))
        with (render_loop (S n) (commit (commit (commit g)))).
      rewrite commit_thrice. exact IH.
Qed.

(** The invariant also holds in the renders between an event and the
    state of rest that follows it: after the update alone and after each
    commit. *)
Lemma guard_inv_between_renders (g : Guard) (u : Update) (n : nat) :
  at_rest g ->
  (isBlocked (cells g) = false /\
   (u = setLoginAttempts (fun prev => prev + 1) \/
    u = setLoginAttempts (fun _ => 0))) \/
  (interval g = true /\ u = setBlockTimer (fun prev => prev - 1)) ->
  guard_inv
    (cells (render_loop n
              {| cells := u (cells g); deps := deps g;
                 interval := interval g |})).
Proof.
  intros Hrest Hu.
  destruct n as [|[|n]]; [| |rewrite render_loop_two].
  all: destruct Hrest as [k Hk | t Ht];
    destruct Hu as [[Hb [-> | ->]] | [Hi ->]]; try discriminate.
  all: unfold render_loop, active, lockedFor, guard_inv.
  all: unfold_commit; cbn; rewrite ?Z.eqb_refl; cbn.
  all: split_atoms; tests_to_Z; try lia.
  all: repeat split; intros; try lia; try discriminate.
Qed.

(** C10.  On every reachable page the cells of the guard satisfy: the
    attempt count is between 0 and 5, the timer is not negative, a blocked
    guard has counted 5 attempts and has at most 300 seconds left, and a
    guard that is not blocked has its timer at 0. *)
Theorem reachable_guard_inv :
  forall p : Page, reachable p -> guard_inv (cells (guard p)).
Proof.
  intros p Hp. apply at_rest_inv. apply reachable_at_rest. exact Hp.
Qed.

Lemma reachable_guard_inv_witness :
  guard_inv (cells (guard lockedOutPage)).
Proof.
  apply (@reachable_guard_inv lockedOutPage).
  unfold lockedOutPage, filledPage. cbn [Nat.iter nat_rect].
  repeat apply reach_submit. repeat apply reach_change. apply reach_init.
Defined.

End GuardFacts.

(** ** Validation before submission *)

Section Validation.

Import JS.

Lemma truthy_true (s : jsstring) : truthy s = true <-> s <> [].
Proof.
  destruct s; simpl; split; intro H; try reflexivity; try discriminate.
  exfalso. apply H. reflexivity.
Qed.

Lemma trimStart_nil (s : jsstring) :
  trimStart s = [] <-> forallb isWhiteSpace s = true.
Proof.
  induction s as [|c rest IH]; simpl.
  - split; reflexivity.
  - destruct (isWhiteSpace c); simpl; [exact IH|].
    split; discriminate.
Qed.

Lemma forallb_trimStart (s : jsstring) :
  forallb isWhiteSpace (trimStart s) = forallb isWhiteSpace s.
Proof.
  induction s as [|c rest IH]; simpl; [reflexivity|].
  destruct (isWhiteSpace c) eqn:E; simpl; [exact IH|].
  rewrite E. reflexivity.
Qed.

Lemma forallb_rev {A} (f : A -> bool) (l : list A) :
  forallb f (rev l) = forallb f l.
Proof.
  induction l as [|a l IH]; simpl; [reflexivity|].
  rewrite forallb_app, IH. simpl. rewrite andb_true_r. apply andb_comm.
Qed.

(** [s.trim()] is empty exactly when [s] is made of white space. *)
Lemma trim_nil (s : jsstring) :
  trim s = [] <-> forallb isWhiteSpace s = true.
Proof.
  unfold trim, trimEnd.
  rewrite <- forallb_trimStart, <- forallb_rev, <- trimStart_nil.
  split; intro H.
  - apply (f_equal (@rev N)) in H. rewrite rev_involutive in H. exact H.
  - rewrite H. reflexivity.
Qed.

(** Once a concatenation starts with [Void] no input is accepted. *)
Lemma test_dead (a b : regex) (s : jsstring) :
  test (Cat (Cat Void a) b) s = false.
Proof.
  induction s as [|c rest IH]; simpl; [reflexivity | exact IH].
Qed.

(** A string accepted by [emailRegex] starts with a code unit that is not
    white space. *)
Lemma emailRegex_head (s : jsstring) :
  test emailRegex s = true ->
  exists c rest, s = c :: rest /\ isWhiteSpace c = false.
Proof.
  destruct s as [|c rest]; [discriminate|].
  intro H. exists c, rest. split; [reflexivity|].
  unfold emailRegex, Plus in H. simpl in H.
  destruct (notSpaceNorAt c) eqn:E.
  - unfold notSpaceNorAt in E. apply negb_true_iff, orb_false_iff in E.
    exact (proj1 E).
  - rewrite test_dead in H. discriminate.
Qed.

Lemma emailRegex_trim (s : jsstring) :
  test emailRegex s = true -> trim s <> [].
Proof.
  intros H Hnil. apply trim_nil in Hnil.
  destruct (emailRegex_head s H) as (c & rest & -> & Hc).
  simpl in Hnil. rewrite Hc in Hnil. discriminate.
Qed.

Example emailRegex_accepts :
  test emailRegex (lit "first.last@shop.example.in") = true.
Proof. reflexivity. Qed.

Example emailRegex_rejects :
  test emailRegex (lit "a@b") = false /\
  test emailRegex (lit "a b@c.d") = false /\
  test emailRegex (lit "a@@b.c") = false /\
  test emailRegex (lit "@b.c") = false.
Proof. repeat split. Qed.

Example phoneRegex_samples :
  test phoneRegex (lit "+91 (080) 555-0100") = true /\
  test phoneRegex (lit "555x0100") = false /\
  test phoneRegex [] = false.
Proof. repeat split. Qed.

(** [validateForm] of the Login page accepts exactly the forms with an
    address that is not empty and matches [emailRegex] and a password that
    is not empty and has six code units or more. *)
Lemma login_validateForm_ok (p : Login.Page) :
  snd (Login.validateForm p) = true <-> Login.form_ok p.
Proof.
  unfold Login.validateForm, Login.form_ok, Login.no_keys. cbn zeta.
  set (e := Login.email (Login.formData p)).
  set (pw := Login.password (Login.formData p)).
  cbn [snd Login.email_error Login.password_error].
  split.
  - intro H.
    destruct (truthy (trim e)) eqn:Et; [|discriminate H].
    destruct (test emailRegex e) eqn:Er; [|discriminate H].
    destruct (truthy pw) eqn:Ep; [|discriminate H].
    cbn in H.
    destruct (str_length pw <? 6)%Z eqn:El; [discriminate H|].
    apply Z.ltb_ge in El. apply truthy_true in Ep.
    destruct (emailRegex_head e Er) as (c & rest & Hc & _).
    repeat split; try assumption. rewrite Hc. discriminate.
  - intros (He & Hr & Hp & Hl).
    pose proof (emailRegex_trim e Hr) as Ht.
    apply truthy_true in Ht, Hp. rewrite Ht, Hr, Hp. cbn.
    apply Z.ltb_ge in Hl. rewrite Hl. reflexivity.
Qed.

Lemma signup_validateForm_ok (q : Signup.Page) :
  snd (Signup.validateForm q) = true <-> Signup.form_ok q.
Proof.
  unfold Signup.validateForm, Signup.form_ok, Signup.no_keys. cbn zeta.
  cbn [snd Signup.firstName_error Signup.lastName_error Signup.email_error
       Signup.password_error Signup.phone_error].
  rewrite <- !truthy_true.
  destruct (truthy (trim (Signup.firstName (Signup.formData q))));
  destruct (truthy (trim (Signup.lastName (Signup.formData q))));
  destruct (truthy (trim (Signup.email (Signup.formData q))));
  destruct (test emailRegex (Signup.email (Signup.formData q)));
  destruct (truthy (Signup.password (Signup.formData q)));
  destruct (Signup.score (Signup.passwordStrength q) <? 3)%Z eqn:Es;
  destruct (truthy (trim (Signup.phone (Signup.formData q))));
  destruct (test phoneRegex (Signup.phone (Signup.formData q)));
  cbn; (apply Z.ltb_lt in Es || apply Z.ltb_ge in Es);
  split; try discriminate; try reflexivity;
  try (intros (? & ? & ? & ? & ? & ? & ? & ?); try discriminate; lia).
  all: intros _; repeat split; assumption.
Qed.

(** The log of the Login page after a submission. *)
Lemma login_handleSubmit_calls
    (reply : Login.Reply) (onLine : bool) (p : Login.Page) :
  Login.calls (Login.handleSubmit reply onLine p) =
  if Login.isBlocked (Login.cells (Login.guard p))
     || negb (snd (Login.validateForm p))
  then Login.calls p
  else Login.calls p ++
       [(Login.email (Login.formData p), Login.password (Login.formData p))].
Proof.
  unfold Login.handleSubmit.
  destruct (Login.isBlocked (Login.cells (Login.guard p))); [reflexivity|].
  destruct (Login.validateForm p) as [newErrors ok].
  destruct ok; cbn; [|reflexivity].
  destruct reply; reflexivity.
Qed.

(** The trace of the Signup page after a submission. *)
Lemma signup_handleSubmit_trace (reply : Signup.Reply) (q : Signup.Page) :
  Signup.trace (Signup.handleSubmit reply q) =
  if negb (snd (Signup.validateForm q)) || Signup.isSubmitting q
  then Signup.trace q
  else
    let f := Signup.formData q in
    (Signup.trace q ++
     [Signup.CallSignup (Signup.firstName f) (Signup.lastName f)
        (Signup.email f) (Signup.password f) (Signup.phone f)]) ++
    match reply with
    | Signup.Resolved => [Signup.Navigate]
    | Signup.Rejected _ => []
    end.
Proof.
  unfold Signup.handleSubmit.
  destruct (Signup.validateForm q) as [newErrors ok].
  destruct ok, (Signup.isSubmitting q); cbn; try reflexivity.
  destruct reply; cbn; [reflexivity | symmetry; apply app_nil_r].
Qed.

(** C8.  Both submit handlers reach the backend only with a form that has
    passed the local checks -- for the Login page an address that is not
    empty and matches the pattern and a password that is not empty and has
    at least six code units -- and a form that fails them leaves the log of
    backend calls as it was. *)
Theorem submit_reaches_backend_only_when_valid :
  forall (reply : Login.Reply) (onLine : bool) (p : Login.Page)
         (reply' : Signup.Reply) (q : Signup.Page),
  (Login.calls (Login.handleSubmit reply onLine p) <> Login.calls p ->
   Login.form_ok p) /\
  (~ Login.form_ok p ->
   Login.calls (Login.handleSubmit reply onLine p) = Login.calls p) /\
  (Signup.trace (Signup.handleSubmit reply' q) <> Signup.trace q ->
   Signup.form_ok q) /\
  (~ Signup.form_ok q ->
   Signup.trace (Signup.handleSubmit reply' q) = Signup.trace q).
Proof.
  intros reply onLine p reply' q.
  rewrite login_handleSubmit_calls, signup_handleSubmit_trace.
  rewrite <- login_validateForm_ok, <- signup_validateForm_ok.
  destruct (snd (Login.validateForm p)), (snd (Signup.validateForm q));
    rewrite ?orb_true_r; cbn [negb orb];
    repeat split; intro H; try reflexivity;
    try (exfalso; apply H; reflexivity).
Qed.

Lemma submit_reaches_backend_only_when_valid_witness :
  Login.form_ok Login.filledPage /\
  Signup.trace (Signup.handleSubmit Signup.Resolved Signup.initialPage) =
    Signup.trace Signup.initialPage.
Proof.
  destruct (@submit_reaches_backend_only_when_valid
              Login.Resolved true Login.filledPage
              Signup.Resolved Signup.initialPage)
    as (Hlogin & _ & _ & Hsignup).
  split.
  - apply Hlogin. vm_compute. discriminate.
  - apply Hsignup. intros (H & _). apply H. reflexivity.
Defined.

End Validation.



(** * Further properties *)

(** ** The price breakdown, continued *)

Section PriceBreakdownMore.

Import Binary64 Orders.
Local Open Scope float_scope.

(** X3.  The percentage is not clamped: when the subtotal is zero or negative
    (the total amount does not exceed the shipping), the original price is
    still above zero and the discount is finite, the percentage shown is
    100 or more. *)
Theorem discountPercentage_not_clamped :
  forall (order : Order) (env : Env),
  let info := value (calculatePriceInfo order env) in
  gtb (originalPrice info) 0 = true ->
  (subtotal info <=? 0) = true ->
  (discount info <? infinity) = true ->
  (100 <=? discountPercentage info) = true.
Proof.
  intros order env.
  destruct (calculatePriceInfo_run order env)
    as (_ & _ & _ & _ & _ & Horig & Hpct & _).
  cbv zeta. intros Hpos Hsub Hfin.
  rewrite Hpct, Hpos. rewrite Horig in *.
  apply percentage_not_clamped; assumption.
Qed.

Lemma discountPercentage_not_clamped_witness :
  discountPercentage
    (value (calculatePriceInfo (mkOrder 20 "COD" [mkItem 2 1])
              (mkEnv [] false None None 30))) = 200 /\
  (100 <=? 200) = true.
Proof.
  split; [vm_compute; reflexivity|].
  apply (@discountPercentage_not_clamped
           (mkOrder 20 "COD" [mkItem 2 1])
           (mkEnv [] false None None 30));
    vm_compute; reflexivity.
Defined.

(** A number that [===] takes for zero is one of the two zeros. *)
Lemma eqb_zero_cases (x : float) :
  (x =? 0) = true -> exists s : bool, Prim2SF x = S754_zero s.
Proof.
  rewrite FloatAxioms.eqb_spec, Prim2SF_zero.
  destruct (Prim2SF x) as [s | [|] | | [|] m e]; intro H;
    try discriminate H; eauto.
Qed.

(** The percentage of a zero discount is that zero when the original price
    is above zero, and 0 otherwise. *)
Lemma zero_discount_percentage (s d : float) :
  (d =? 0) = true ->
  (if gtb (s + d) 0 then Math_round (d / (s + d) * 100) else 0) =
  (if gtb (s + d) 0 then d else 0).
Proof.
  intro Hd. destruct (eqb_zero_cases Hd) as [sd Ed].
  unfold gtb. destruct (0 <? s + d) eqn:Ho; [|reflexivity].
  assert (Ex : Prim2SF (d / (s + d) * 100) = S754_zero sd).
  { rewrite FloatAxioms.mul_spec, FloatAxioms.div_spec, Ed, Prim2SF_hundred.
    destruct (positive_cases Ho) as [(mo & eo & Eo) | Eo]; rewrite Eo;
      destruct sd; reflexivity. }
  rewrite (Math_round_zero _ Ex).
  apply Prim2SF_inj. rewrite Ex, Ed. reflexivity.
Qed.

(** X4.  An order without discount (no item, or an extra charge of zero) shows
    0 percent, whatever its amounts: a discount that [===] takes for zero
    gives a percentage that it takes for zero, and a discount of 0 gives
    the percentage 0. *)
Theorem no_discount_no_percentage :
  forall (order : Order) (env : Env),
  let info := value (calculatePriceInfo order env) in
  ((discount info =? 0) = true -> (discountPercentage info =? 0) = true) /\
  (discount info = 0 -> discountPercentage info = 0).
Proof.
  intros order env.
  destruct (calculatePriceInfo_run order env)
    as (_ & _ & _ & _ & _ & Horig & Hpct & _).
  cbv zeta. rewrite Hpct, Horig. split.
  - intro Hz. rewrite (zero_discount_percentage _ Hz).
    destruct (gtb _ 0); [exact Hz | reflexivity].
  - intro Hz.
    assert (Hz' : (discount (value (calculatePriceInfo order env)) =? 0)
                  = true) by (rewrite Hz; reflexivity).
    rewrite (zero_discount_percentage _ Hz').
    destruct (gtb _ 0); [exact Hz | reflexivity].
Qed.

Lemma no_discount_no_percentage_witness :
  discountPercentage
    (value (calculatePriceInfo (mkOrder 120 "ONLINE" [])
              (mkEnv [] false None None 30))) = 0.
Proof.
  apply (proj2 (@no_discount_no_percentage
                  (mkOrder 120 "ONLINE" [])
                  (mkEnv [] false None None 30))).
  vm_compute. reflexivity.
Defined.

End PriceBreakdownMore.

(** ** Loading the orders *)

Section FetchOrders.

Import JS OrdersPage.

Lemma onError_cells (message : jsstring) (p : Page) :
  orders (onError message p) = [] /\
  loading (onError message p) = loading p /\
  expandedOrder (onError message p) = expandedOrder p /\
  exists text : jsstring,
    error (onError message p) = Some text /\ text <> [] /\
    (includes (lit "token") message = true ->
     text = lit "Session expired. Please login again." /\
     trace (onError message p) = trace p ++ [ConsoleError; Logout]) /\
    (includes (lit "token") message = false ->
     trace (onError message p) = trace p ++ [ConsoleError]).
Proof.
  unfold onError.
  destruct (includes (lit "token") message) eqn:E; cbn.
  - repeat split. eexists. split; [reflexivity|].
    split; [discriminate|]. split; [|discriminate].
    intros _. split; [reflexivity|].
    rewrite <- app_assoc. reflexivity.
  - repeat split. eexists. split; [reflexivity|].
    split; [|split; [discriminate | reflexivity]].
    destruct message; cbn; discriminate.
Qed.



(** X7.  A fetch only appends to the trace; [logout()] is called only on a
    failed fetch, and then the error shown is the session message and the
    list is empty; a refusal that carries no message never logs out;
    without a user id nothing is sent at all. *)
Theorem fetchOrders_logout :
  forall (userId : option jsstring) (reply : Reply) (p : Page),
  exists tail : list Effect,
    trace (fetchOrders userId reply p) = trace p ++ tail /\
    (In Logout tail ->
     error (fetchOrders userId reply p) =
       Some (lit "Session expired. Please login again.") /\
     orders (fetchOrders userId reply p) = [] /\
     forall os, reply <> Fetched os) /\
    (reply = Refused [] -> ~ In Logout tail) /\
    (has_id userId = false -> tail = []).
Proof.
  intros userId reply p. unfold fetchOrders.
  destruct (has_id userId) eqn:Hid; cbn [negb].
  2:{ exists []. cbn. rewrite app_nil_r.
      split; [reflexivity|]. split; [intros []|].
      split; [intros _ []|reflexivity]. }
  cbv zeta.
  destruct reply as [os | message | [message|]].
  - eexists. cbn. split; [reflexivity|].
    split; [intros [H | []]; discriminate H|].
    split; [discriminate|discriminate].
  - match goal with |- context [onError ?m ?q] =>
      destruct (onError_cells m q)
        as (Ho & _ & _ & text & He & _ & Hyes & Hno);
      destruct (includes (lit "token") m) eqn:E
    end.
    + destruct (Hyes eq_refl) as [-> Htr].
      eexists. cbn [setLoading trace error orders]. rewrite Htr.
      cbn [emit setError setLoading trace]. rewrite <- app_assoc.
      split; [reflexivity|].
      split; [intros _; repeat split; try assumption;
              intros os; discriminate|].
      split; [|discriminate].
      intros Hm. injection Hm as ->. cbn in E. discriminate E.
    + eexists. cbn [setLoading trace error orders]. rewrite (Hno eq_refl).
      cbn [emit setError setLoading trace]. rewrite <- app_assoc.
      split; [reflexivity|]. cbn.
      split; [intros [H | [H | []]]; discriminate H|].
      split; [intros _ [H | [H | []]]; discriminate H|discriminate].
  - match goal with |- context [onError ?m ?q] =>
      destruct (onError_cells m q)
        as (Ho & _ & _ & text & He & _ & Hyes & Hno);
      destruct (includes (lit "token") m) eqn:E
    end.
    + destruct (Hyes eq_refl) as [-> Htr].
      eexists. cbn [setLoading trace error orders]. rewrite Htr.
      cbn [emit setError setLoading trace]. rewrite <- app_assoc.
      split; [reflexivity|].
      split; [intros _; repeat split; try assumption;
              intros os; discriminate|].
      split; discriminate.
    + eexists. cbn [setLoading trace error orders]. rewrite (Hno eq_refl).
      cbn [emit setError setLoading trace]. rewrite <- app_assoc.
      split; [reflexivity|]. cbn.
      split; [intros [H | [H | []]]; discriminate H|].
      split; discriminate.
  - eexists. cbn [onErrorWithoutMessage emit setError setLoading trace].
    rewrite <- !app_assoc. split; [reflexivity|]. cbn.
    split; [intros [H | [H | [H | []]]]; discriminate H|].
    split; discriminate.
Qed.

Lemma fetchOrders_logout_witness :
  error (fetchOrders (Some (lit "u1")) (Thrown (Some (lit "jwt token expired")))
           initialPage)
  = Some (lit "Session expired. Please login again.").
Proof.
  destruct (@fetchOrders_logout (Some (lit "u1"))
              (Thrown (Some (lit "jwt token expired"))) initialPage)
    as (tail & Htr & Hlog & _).
  apply Hlog.
  vm_compute in Htr. rewrite <- Htr. right. right. left. reflexivity.
Defined.

End FetchOrders.



(** ** The attempt guard, continued *)

Section GuardMore.

Import JS Login.
Local Open Scope Z_scope.

(** X8.  The two effects do not loop: from any values of the cells and of the
    previous dependencies, a third commit changes nothing, so the render
    loop ends in a state where the dependencies equal the cells. *)
Theorem effects_stabilise :
  forall g : Guard,
  commit (commit (commit g)) = commit (commit g) /\
  commit (settle g) = settle g /\
  deps (settle g) = cells (settle g).
Proof.
  intro g. split; [apply commit_thrice|].
  split; [apply settle_quiescent | apply settle_deps].
Qed.

Lemma ticks_locked (n : nat) (t : Z) :
  Z.of_nat n < t ->
  ticks n (lockedFor t) = Some (lockedFor (t - Z.of_nat n)).
Proof.
  revert t. induction n as [|n IH]; intros t Hlt.
  - cbn [ticks]. f_equal. f_equal. cbn. lia.
  - cbn [ticks]. rewrite tick_locked by lia. rewrite IH by lia.
    f_equal. f_equal. lia.
Qed.

Lemma ticks_to_zero (n : nat) :
  ticks (S n) (lockedFor (Z.of_nat (S n))) = Some (active 0).
Proof.
  induction n as [|n IH].
  - cbn [ticks]. change (Z.of_nat 1) with 1. rewrite tick_last. reflexivity.
  - cbn [ticks]. rewrite tick_locked by lia.
    replace (Z.of_nat (S (S n)) - 1) with (Z.of_nat (S n)) by lia.
    exact IH.
Qed.

(** X9.  On a reachable blocked page the time remaining is between 1 and 300
    seconds; that many firings of the interval end the lockout with the
    attempt count back at 0, and after any smaller number the page is
    still blocked with the time reduced by that number. *)
Theorem lockout_lasts_exactly :
  forall p : Page,
  reachable p ->
  isBlocked (cells (guard p)) = true ->
  1 <= remaining (guard p) <= 300 /\
  ticks (Z.to_nat (remaining (guard p))) (guard p) = Some (active 0) /\
  forall n : nat,
    (n < Z.to_nat (remaining (guard p)))%nat ->
    exists g : Guard,
      ticks n (guard p) = Some g /\ blocked g = true /\
      remaining g = remaining (guard p) - Z.of_nat n.
Proof.
  intros p Hp Hb. apply reachable_at_rest in Hp.
  destruct Hp as [k Hk | t Ht]; [discriminate Hb|].
  unfold remaining. cbn [lockedFor cells blockTimer].
  split; [exact Ht|]. split.
  - destruct (Z.to_nat t) as [|n] eqn:En; [lia|].
    replace t with (Z.of_nat (S n)) by lia. apply ticks_to_zero.
  - intros n Hn. exists (lockedFor (t - Z.of_nat n)).
    split; [apply ticks_locked; lia|]. split; reflexivity.
Qed.

Lemma lockout_lasts_exactly_witness :
  ticks (Z.to_nat (remaining (guard lockedOutPage))) (guard lockedOutPage)
  = Some (active 0).
Proof.
  refine (proj1 (proj2 (@lockout_lasts_exactly lockedOutPage _ _))).
  - apply lockedOutPage_reachable.
  - vm_compute. reflexivity.
Defined.

(** X10.  On a reachable page the interval is installed exactly while the page
    is blocked: no timer is left behind when a lockout ends, and during a
    lockout the countdown can always fire. *)
Theorem interval_only_while_blocked :
  forall p : Page,
  reachable p ->
  interval (guard p) = isBlocked (cells (guard p)) /\
  deps (guard p) = cells (guard p) /\
  (isBlocked (cells (guard p)) = false -> handleTick p = None) /\
  (isBlocked (cells (guard p)) = true -> handleTick p <> None).
Proof.
  intros p Hp. apply reachable_at_rest in Hp. unfold handleTick, tick.
  destruct Hp as [k Hk | t Ht]; cbn [active lockedFor interval cells deps isBlocked];
    repeat split; try discriminate.
Qed.

Lemma interval_only_while_blocked_witness :
  interval (guard lockedOutPage) = isBlocked (cells (guard lockedOutPage)).
Proof.
  refine (proj1 (@interval_only_while_blocked lockedOutPage _)).
  apply lockedOutPage_reachable.
Defined.

Lemma handleSubmit_rejected (message : jsstring) (onLine : bool) (p : Page) :
  isBlocked (cells (guard p)) = false ->
  snd (validateForm p) = true ->
  guard (handleSubmit (Rejected message) onLine p) = recordFailure (guard p) /\
  formData (handleSubmit (Rejected message) onLine p) = formData p.
Proof.
  intros Hb Hok. unfold handleSubmit. rewrite Hb.
  unfold validateForm in *. cbn zeta in *. cbn [snd] in Hok.
  rewrite Hok. cbn. split; reflexivity.
Qed.

Lemma handleSubmit_blocked (reply : Reply) (onLine : bool) (p : Page) :
  isBlocked (cells (guard p)) = true -> handleSubmit reply onLine p = p.
Proof.
  intro Hb. unfold handleSubmit. rewrite Hb. reflexivity.
Qed.

Lemma validateForm_formData (p q : Page) :
  formData p = formData q -> snd (validateForm p) = snd (validateForm q).
Proof.
  intro H. unfold validateForm. rewrite H. reflexivity.
Qed.

(** X11.  On a reachable page that is not blocked and holds a form that passes
    the checks, [n] rejected submissions in a row leave the guard at rest
    with the count raised by [n] as long as that stays below 5, and from
    the one that reaches 5 on the guard is locked with 300 seconds:
    submissions after the lockout change nothing. *)
Theorem lockout_at_fifth_failure :
  forall (message : jsstring) (onLine : bool) (p : Page) (n : nat),
  reachable p ->
  isBlocked (cells (guard p)) = false ->
  snd (validateForm p) = true ->
  guard (Nat.iter n (handleSubmit (Rejected message) onLine) p) =
  if attemptCount (guard p) + Z.of_nat n <? 5
  then active (attemptCount (guard p) + Z.of_nat n)
  else lockedFor 300.
Proof.
  intros message onLine p n Hp Hb Hok.
  apply reachable_at_rest in Hp.
  destruct (guard p) as [c d iv] eqn:Eg.
  destruct Hp as [k Hk | t Ht]; [|discriminate Hb].
  unfold attemptCount. cbn [active cells loginAttempts].
  assert (H : guard (Nat.iter n (handleSubmit (Rejected message) onLine) p) =
              (if k + Z.of_nat n <? 5 then active (k + Z.of_nat n)
               else lockedFor 300) /\
              formData (Nat.iter n (handleSubmit (Rejected message) onLine) p)
              = formData p).
  { induction n as [|n [IHg IHf]].
    - change (Nat.iter 0 (handleSubmit (Rejected message) onLine) p) with p.
      split; [|reflexivity].
      rewrite Eg. destruct (k + Z.of_nat 0 <? 5) eqn:E.
      + f_equal. cbn. lia.
      + apply Z.ltb_ge in E. cbn in E. lia.
    - rewrite !Nat.iter_succ.
      set (q := Nat.iter n (handleSubmit (Rejected message) onLine) p) in *.
      destruct (k + Z.of_nat n <? 5) eqn:E.
      + apply Z.ltb_lt in E.
        destruct (@handleSubmit_rejected message onLine q) as [Hg Hf].
        * rewrite IHg. reflexivity.
        * rewrite (validateForm_formData q p IHf). exact Hok.
        * split; [|rewrite Hf; exact IHf].
          rewrite Hg, IHg.
          destruct (k + Z.of_nat (S n) <? 5) eqn:E'.
          -- apply Z.ltb_lt in E'. rewrite recordFailure_active by lia.
             f_equal. lia.
          -- apply Z.ltb_ge in E'.
             replace (k + Z.of_nat n) with 4 by lia.
             apply recordFailure_fifth.
      + apply Z.ltb_ge in E.
        rewrite handleSubmit_blocked by (rewrite IHg; reflexivity).
        split; [|exact IHf]. rewrite IHg.
        destruct (k + Z.of_nat (S n) <? 5) eqn:E'; [|reflexivity].
        apply Z.ltb_lt in E'. lia. }
  exact (proj1 H).
Qed.

Lemma lockout_at_fifth_failure_witness :
  guard (Nat.iter 5 (handleSubmit (Rejected (lit "Invalid password")) true)
           filledPage)
  = lockedFor 300.
Proof.
  refine (@lockout_at_fifth_failure (lit "Invalid password") true
            filledPage 5 _ _ _).
  - unfold filledPage. repeat apply reach_change. apply reach_init.
  - reflexivity.
  - vm_compute. reflexivity.
Defined.

(** X12.  On a page that is not blocked, submitting a form that fails the checks
    is not counted as an attempt: the guard, the form and [isSubmitting]
    are unchanged, no form error is set, and a message is stored for the
    address or for the password. *)
Theorem invalid_form_is_not_an_attempt :
  forall (reply : Reply) (onLine : bool) (p : Page),
  isBlocked (cells (guard p)) = false ->
  ~ form_ok p ->
  let p' := handleSubmit reply onLine p in
  guard p' = guard p /\
  isSubmitting p' = isSubmitting p /\
  formData p' = formData p /\
  form_error (errors p') = None /\
  (email_error (errors p') <> None \/ password_error (errors p') <> None).
Proof.
  intros reply onLine p Hb Hbad p'. subst p'.
  rewrite <- login_validateForm_ok in Hbad.
  unfold handleSubmit. rewrite Hb.
  destruct (validateForm p) as [newErrors ok] eqn:Ev.
  cbn [snd] in Hbad. destruct ok; [contradiction Hbad; reflexivity|].
  cbn. repeat split.
  - unfold validateForm in Ev. cbn zeta in Ev. injection Ev as <- _.
    reflexivity.
  - unfold validateForm in Ev. cbn zeta in Ev. injection Ev as <- Hk.
    unfold no_keys in Hk. cbn in Hk |- *.
    destruct (if negb (truthy (trim (email (formData p)))) then _ else _);
      [left; discriminate|].
    destruct (if negb (truthy (password (formData p))) then _ else _);
      [right; discriminate|discriminate Hk].
Qed.

Lemma invalid_form_is_not_an_attempt_witness :
  guard (handleSubmit Resolved true initialPage) = guard initialPage.
Proof.
  refine (proj1 (@invalid_form_is_not_an_attempt Resolved true initialPage _ _)).
  - reflexivity.
  - intros (H & _). apply H. reflexivity.
Defined.

Lemma handleChange_calls (name : Field) (value : jsstring) (p : Page) :
  calls (handleChange name value p) = calls p.
Proof.
  unfold handleChange.
  destruct name, (email_error (errors p)), (password_error (errors p));
    reflexivity.
Qed.

(** X13.  Every call of [login] in the log of a reachable page carries an
    address that matches [emailRegex] and a password of at least six code
    units. *)
Theorem logged_calls_are_validated :
  forall p : Page,
  reachable p ->
  Forall (fun c : jsstring * jsstring =>
            test emailRegex (fst c) = true /\ 6 <= str_length (snd c))
         (calls p).
Proof.
  induction 1 as [| reply onLine p Hp IH | name value p Hp IH
                  | p p' Hp IH Htick].
  - constructor.
  - rewrite login_handleSubmit_calls.
    destruct (isBlocked (cells (guard p)) || negb (snd (validateForm p)))
      eqn:E; [exact IH|].
    apply orb_false_iff in E. destruct E as [_ E].
    apply negb_false_iff, login_validateForm_ok in E.
    destruct E as (_ & Hr & _ & Hl).
    apply Forall_app. split; [exact IH|].
    constructor; [split; assumption | constructor].
  - rewrite handleChange_calls. exact IH.
  - unfold handleTick in Htick. destruct (tick (guard p)); [|discriminate].
    injection Htick as <-. exact IH.
Qed.

Lemma logged_calls_are_validated_witness :
  Forall (fun c : jsstring * jsstring =>
            test emailRegex (fst c) = true /\ 6 <= str_length (snd c))
         (calls lockedOutPage).
Proof.
  apply (@logged_calls_are_validated lockedOutPage).
  apply lockedOutPage_reachable.
Defined.

(** X14.  Edits of the form compose: editing the address and the password gives
    the same page in either order, a second edit of a field overrides the
    first, and no edit touches the guard or the log of calls. *)
Theorem edits_compose :
  forall (v w : jsstring) (name : Field) (p : Page),
  handleChange Email v (handleChange Password w p) =
    handleChange Password w (handleChange Email v p) /\
  handleChange name v (handleChange name w p) = handleChange name v p /\
  guard (handleChange name v p) = guard p /\
  calls (handleChange name v p) = calls p.
Proof.
  intros v w name p. destruct p as [[e pw] [ee pe fe] s g c].
  unfold handleChange.
  destruct name, ee, pe; cbn; repeat split.
Qed.

End GuardMore.


(** ** The text of the countdown *)

Section Countdown.

Import JS Login LoginView.
Local Open Scope Z_scope.

Lemma str_eqb_eq (s t : jsstring) : str_eqb s t = true -> s = t.
Proof.
  unfold str_eqb. destruct (list_eq_dec N.eq_dec s t); [trivial|discriminate].
Qed.

Lemma countdown_upto_300 (t : Z) :
  0 <= t <= 300 ->
  countdownText t =
    [Z.to_N (48 + t / 60); 58%N;
     Z.to_N (48 + (t mod 60) / 10); Z.to_N (48 + (t mod 60) mod 10)] /\
  readDigits 0 (secondsShown t) = Some (t mod 60).
Proof.
  intro Ht.
  assert (Hall :
    forallb (fun n : nat =>
      let t := Z.of_nat n in
      str_eqb (countdownText t)
        [Z.to_N (48 + t / 60); 58%N;
         Z.to_N (48 + (t mod 60) / 10); Z.to_N (48 + (t mod 60) mod 10)]
      && match readDigits 0 (secondsShown t) with
         | Some v => v =? t mod 60
         | None => false
         end) (seq 0 301) = true).
  { vm_compute. reflexivity. }
  rewrite forallb_forall in Hall.
  specialize (Hall (Z.to_nat t)).
  rewrite Z2Nat.id in Hall by lia.
  assert (Hin : In (Z.to_nat t) (seq 0 301)) by (apply in_seq; lia).
  apply Hall in Hin. cbv zeta in Hin.
  apply andb_true_iff in Hin. destruct Hin as [H1 H2].
  split; [apply str_eqb_eq; exact H1|].
  destruct (readDigits 0 (secondsShown t)) as [v|]; [|discriminate].
  apply Z.eqb_eq in H2. rewrite H2. reflexivity.
Qed.

(** X15.  On every reachable page the countdown text is one minute digit between
    0 and 5, a colon and two second digits, and reads back as the timer:
    the seconds read as the timer modulo 60, and 60 times the minutes plus
    the seconds is the timer. *)
Theorem countdown_text_reads_back :
  forall p : Page,
  reachable p ->
  let t := blockTimer (cells (guard p)) in
  countdownText t =
    [Z.to_N (48 + t / 60); 58%N;
     Z.to_N (48 + (t mod 60) / 10); Z.to_N (48 + (t mod 60) mod 10)] /\
  0 <= t / 60 <= 5 /\
  0 <= (t mod 60) / 10 <= 5 /\
  0 <= (t mod 60) mod 10 <= 9 /\
  readDigits 0 (secondsShown t) = Some (t mod 60) /\
  60 * minutesShown t + t mod 60 = t.
Proof.
  intros p Hp t.
  assert (Ht : 0 <= t <= 300).
  { apply reachable_at_rest in Hp. subst t.
    destruct Hp as [k Hk | s Hs]; unfold active, lockedFor; cbn; lia. }
  destruct (countdown_upto_300 Ht) as [Htext Hread].
  split; [exact Htext|].
  pose proof (Z.mod_pos_bound t 60 ltac:(lia)) as Hm.
  pose proof (Z.mod_pos_bound (t mod 60) 10 ltac:(lia)) as Hm'.
  unfold minutesShown.
  assert (H1 : 0 <= t / 60) by (apply Z.div_pos; lia).
  assert (H2 : t / 60 < 6) by (apply Z.div_lt_upper_bound; lia).
  assert (H3 : 0 <= t mod 60 / 10) by (apply Z.div_pos; lia).
  assert (H4 : t mod 60 / 10 < 6) by (apply Z.div_lt_upper_bound; lia).
  pose proof (Z.div_mod t 60 ltac:(lia)) as H5.
  repeat split; try assumption; lia.
Qed.

Lemma countdown_text_reads_back_witness :
  countdownText (blockTimer (cells (guard lockedOutPage))) = lit "5:00".
Proof.
  refine (eq_trans (proj1 (@countdown_text_reads_back lockedOutPage _)) _).
  - apply lockedOutPage_reachable.
  - vm_compute. reflexivity.
Defined.

End Countdown.

(** ** What the patterns accept *)

Section Patterns.

Import JS RegexSem.

Lemma nullable_matches (r : regex) : nullable r = true <-> matches r [].
Proof.
  split.
  - induction r as [| | p | r1 IH1 r2 IH2 | r1 IH1 r2 IH2 | r IH];
      simpl; intro H; try discriminate.
    + constructor.
    + apply andb_true_iff in H. destruct H as [H1 H2].
      change (@nil N) with (@nil N ++ @nil N).
      constructor; auto.
    + apply orb_true_iff in H. destruct H as [H | H].
      * apply m_alt_l. auto.
      * apply m_alt_r. auto.
    + constructor.
  - intro H. remember [] as s eqn:Es.
    induction H as [| p c Hp | r1 r2 s1 s2 H1 IH1 H2 IH2
                    | r1 r2 s H IH | r1 r2 s H IH | r
                    | r s1 s2 H1 IH1 H2 IH2]; simpl; try reflexivity.
    + discriminate Es.
    + apply app_eq_nil in Es. destruct Es as [-> ->].
      rewrite IH1, IH2; reflexivity.
    + rewrite IH by exact Es. reflexivity.
    + rewrite IH by exact Es. apply orb_true_r.
Qed.

Lemma deriv_sound (c : N) (r : regex) (s : jsstring) :
  matches (deriv c r) s -> matches r (c :: s).
Proof.
  revert s.
  induction r as [| | p | r1 IH1 r2 IH2 | r1 IH1 r2 IH2 | r IH];
    simpl; intros s H.
  - inversion H.
  - inversion H.
  - destruct (p c) eqn:E; inversion H; subst.
    constructor. exact E.
  - destruct (nullable r1) eqn:En.
    + inversion H as [| | | ? ? ? H' | ? ? ? H' | |]; subst.
      * inversion H' as [| | ? ? s1 s2 Ha Hb | | | |]; subst.
        change (c :: s1 ++ s2) with ((c :: s1) ++ s2).
        constructor; auto.
      * change (c :: s) with ([] ++ c :: s).
        constructor; [apply nullable_matches; exact En | auto].
    + inversion H as [| | ? ? s1 s2 Ha Hb | | | |]; subst.
      change (c :: s1 ++ s2) with ((c :: s1) ++ s2).
      constructor; auto.
  - inversion H; subst; [apply m_alt_l | apply m_alt_r]; auto.
  - inversion H as [| | ? ? s1 s2 Ha Hb | | | |]; subst.
    change (c :: s1 ++ s2) with ((c :: s1) ++ s2).
    apply m_star_cons; auto.
Qed.

Lemma deriv_complete (c : N) (r : regex) (s : jsstring) :
  matches r (c :: s) -> matches (deriv c r) s.
Proof.
  intro H. remember (c :: s) as cs eqn:Ecs. revert s Ecs.
  induction H as [| p a Hp | r1 r2 s1 s2 H1 IH1 H2 IH2
                  | r1 r2 s0 H IH | r1 r2 s0 H IH | r
                  | r s1 s2 H1 IH1 H2 IH2]; intros s Ecs; simpl.
  - discriminate Ecs.
  - injection Ecs as -> <-. rewrite Hp. constructor.
  - destruct s1 as [|a s1'].
    + simpl in Ecs. subst s2.
      apply nullable_matches in H1. rewrite H1.
      apply m_alt_r. apply IH2. reflexivity.
    + simpl in Ecs. injection Ecs as -> <-.
      specialize (IH1 s1' eq_refl).
      destruct (nullable r1).
      * apply m_alt_l. constructor; assumption.
      * constructor; assumption.
  - apply m_alt_l. auto.
  - apply m_alt_r. auto.
  - discriminate Ecs.
  - destruct s1 as [|a s1'].
    + simpl in Ecs. apply IH2. exact Ecs.
    + simpl in Ecs. injection Ecs as -> <-.
      constructor; [apply IH1; reflexivity | exact H2].
Qed.

(** The matcher by derivatives accepts the strings of the expression. *)
Lemma test_matches (r : regex) (s : jsstring) :
  test r s = true <-> matches r s.
Proof.
  revert r. induction s as [|c s IH]; intro r; simpl.
  - apply nullable_matches.
  - rewrite IH. split; [apply deriv_sound | apply deriv_complete].
Qed.

Lemma matches_cat (r1 r2 : regex) (s : jsstring) :
  matches (Cat r1 r2) s <->
  exists s1 s2, s = s1 ++ s2 /\ matches r1 s1 /\ matches r2 s2.
Proof.
  split.
  - intro H. inversion H; subst. eauto.
  - intros (s1 & s2 & -> & H1 & H2). constructor; assumption.
Qed.

Lemma matches_class (p : N -> bool) (s : jsstring) :
  matches (Class p) s <-> exists c, s = [c] /\ p c = true.
Proof.
  split.
  - intro H. inversion H; subst. eauto.
  - intros (c & -> & Hc). constructor. exact Hc.
Qed.

Lemma matches_star_class (p : N -> bool) (s : jsstring) :
  matches (Star (Class p)) s <-> forallb p s = true.
Proof.
  split.
  - intro H. remember (Star (Class p)) as r eqn:Er.
    induction H as [| | | | | r | r s1 s2 H1 _ H2 IH2]; try discriminate Er.
    + reflexivity.
    + injection Er as ->. inversion H1; subst. simpl.
      rewrite IH2 by reflexivity. rewrite andb_true_r. assumption.
  - induction s as [|c s IH]; simpl; intro H.
    + constructor.
    + apply andb_true_iff in H. destruct H as [Hc Hs].
      change (c :: s) with ([c] ++ s).
      apply m_star_cons; [constructor; exact Hc | auto].
Qed.

Lemma matches_plus_class (p : N -> bool) (s : jsstring) :
  matches (Plus (Class p)) s <-> s <> [] /\ forallb p s = true.
Proof.
  unfold Plus. rewrite matches_cat. split.
  - intros (s1 & s2 & -> & H1 & H2).
    apply matches_class in H1. destruct H1 as (c & -> & Hc).
    apply matches_star_class in H2. simpl. rewrite Hc, H2.
    split; [discriminate | reflexivity].
  - intros [Hne H]. destruct s as [|c s]; [contradiction|].
    simpl in H. apply andb_true_iff in H. destruct H as [Hc Hs].
    exists [c], s. split; [reflexivity|].
    split; [constructor; exact Hc | apply matches_star_class; exact Hs].
Qed.

Lemma matches_chr (a : ascii) (s : jsstring) :
  matches (Chr a) s <-> s = [N_of_ascii a].
Proof.
  unfold Chr. rewrite matches_class. split.
  - intros (c & -> & Hc). apply N.eqb_eq in Hc. rewrite Hc. reflexivity.
  - intros ->. eexists. split; [reflexivity | apply N.eqb_refl].
Qed.

Lemma address_shape_of_match (s : jsstring) :
  test emailRegex s = true -> addressShape s.
Proof.
  rewrite test_matches. unfold emailRegex, addressShape. intro H.
  apply matches_cat in H. destruct H as (a & s1 & -> & Ha & H).
  apply matches_cat in H. destruct H as (x & s2 & -> & Hx & H).
  apply matches_cat in H. destruct H as (b & s3 & -> & Hb & H).
  apply matches_cat in H. destruct H as (y & c & -> & Hy & Hc).
  apply matches_chr in Hx, Hy. subst x y.
  apply matches_plus_class in Ha, Hb, Hc.
  exists a, b, c. intuition.
Qed.

Lemma match_of_address_shape (s : jsstring) :
  addressShape s -> test emailRegex s = true.
Proof.
  rewrite test_matches. unfold emailRegex, addressShape.
  intros (a & b & c & -> & Ha & Hb & Hc & Fa & Fb & Fc).
  apply m_cat; [apply matches_plus_class; auto|].
  apply m_cat; [apply matches_chr; reflexivity|].
  apply m_cat; [apply matches_plus_class; auto|].
  apply m_cat; [apply matches_chr; reflexivity|].
  apply matches_plus_class; auto.
Qed.

(** X16.  [emailRegex] accepts exactly the strings made of a local part, an at
    sign, a domain, a dot and an ending, where the three parts are not
    empty and hold neither white space nor an at sign. *)
Theorem emailRegex_accepts_exactly :
  forall s : jsstring, test emailRegex s = true <-> addressShape s.
Proof.
  intro s. split; [apply address_shape_of_match | apply match_of_address_shape].
Qed.

Lemma emailRegex_accepts_exactly_witness :
  addressShape (lit "first.last@shop.example.in").
Proof.
  apply (proj1 (@emailRegex_accepts_exactly
                  (lit "first.last@shop.example.in"))).
  reflexivity.
Defined.

(** X17.  [phoneRegex] accepts exactly the strings that are not empty and made
    of digits, white space, hyphens, plus signs and parentheses; no digit
    is required. *)
Theorem phoneRegex_accepts_exactly :
  forall s : jsstring,
  test phoneRegex s = true <-> s <> [] /\ forallb phoneChar s = true.
Proof.
  intro s. rewrite test_matches. unfold phoneRegex.
  apply matches_plus_class.
Qed.

Lemma phoneRegex_accepts_exactly_witness :
  test phoneRegex (lit "(-)") = true.
Proof.
  apply (proj2 (@phoneRegex_accepts_exactly (lit "(-)"))).
  split; [discriminate | reflexivity].
Defined.

Lemma part_facts (a : jsstring) :
  forallb notSpaceNorAt a = true ->
  count_occ N.eq_dec a 64%N = 0%nat /\ existsb isWhiteSpace a = false.
Proof.
  induction a as [|c a IH]; simpl; intro H; [split; reflexivity|].
  apply andb_true_iff in H. destruct H as [Hc Ha].
  destruct (IH Ha) as [IH1 IH2].
  unfold notSpaceNorAt in Hc. apply negb_true_iff, orb_false_iff in Hc.
  destruct Hc as [Hw Hat]. change (N_of_ascii "@") with 64%N in Hat.
  apply N.eqb_neq in Hat.
  destruct (N.eq_dec c 64) as [E|_]; [contradiction|].
  rewrite Hw, IH2. split; [exact IH1 | reflexivity].
Qed.

Lemma existsb_rev {A} (f : A -> bool) (l : list A) :
  existsb f (rev l) = existsb f l.
Proof.
  induction l as [|a l IH]; simpl; [reflexivity|].
  rewrite existsb_app, IH. simpl. rewrite orb_false_r. apply orb_comm.
Qed.

Lemma trimStart_clean (s : jsstring) :
  existsb isWhiteSpace s = false -> trimStart s = s.
Proof.
  destruct s as [|c s]; simpl; [reflexivity|].
  intro H. apply orb_false_iff in H. destruct H as [-> _]. reflexivity.
Qed.

Lemma trim_clean (s : jsstring) :
  existsb isWhiteSpace s = false -> trim s = s.
Proof.
  intro H. unfold trim, trimEnd.
  rewrite (trimStart_clean s H).
  rewrite trimStart_clean by (rewrite existsb_rev; exact H).
  apply rev_involutive.
Qed.

(** X18.  An address accepted by [emailRegex] holds exactly one at sign and no
    white space, has at least five code units, and is left unchanged by
    [trim]. *)
Theorem accepted_address_facts :
  forall s : jsstring,
  test emailRegex s = true ->
  count_occ N.eq_dec s 64%N = 1%nat /\
  existsb isWhiteSpace s = false /\
  (5 <= List.length s)%nat /\
  trim s = s.
Proof.
  intros s H.
  pose proof (address_shape_of_match s H) as Hshape.
  destruct Hshape as (a & b & c & -> & Ha & Hb & Hc & Fa & Fb & Fc).
  destruct (part_facts a Fa) as [Ca Wa].
  destruct (part_facts b Fb) as [Cb Wb].
  destruct (part_facts c Fc) as [Cc Wc].
  assert (Hws : existsb isWhiteSpace
                  (a ++ [N_of_ascii "@"] ++ b ++ [N_of_ascii "."] ++ c)
                = false).
  { rewrite !existsb_app, Wa, Wb, Wc. reflexivity. }
  split.
  - rewrite !count_occ_app, Ca, Cb, Cc. reflexivity.
  - split; [exact Hws|]. split; [|apply trim_clean; exact Hws].
    rewrite !length_app.
    destruct a; [contradiction|]. destruct b; [contradiction|].
    destruct c; [contradiction|]. simpl. lia.
Qed.

Lemma accepted_address_facts_witness :
  count_occ N.eq_dec (lit "a@b.co") 64%N = 1%nat.
Proof.
  refine (proj1 (@accepted_address_facts (lit "a@b.co") _)).
  reflexivity.
Defined.

End Patterns.


(** ** The Signup page, continued *)

Section SignupMore.

Import JS Signup SignupEvents.
Local Open Scope Z_scope.

Lemma checkPasswordStrength_score (pw : jsstring) (p : Page) :
  score (passwordStrength (checkPasswordStrength pw p)) =
  (if 8 <=? str_length pw then 1 else 0) + classesUsed pw.
Proof.
  unfold checkPasswordStrength, classesUsed. cbn.
  destruct (8 <=? str_length pw), (existsb isUpper pw),
    (existsb isLower pw), (existsb isDigit pw),
    (existsb (fun c => negb (isUpper c || isLower c || isDigit c)) pw);
    reflexivity.
Qed.

Lemma classesUsed_bounds (pw : jsstring) :
  0 <= classesUsed pw <= 4 /\ (pw <> [] -> 1 <= classesUsed pw).
Proof.
  unfold classesUsed. split.
  - destruct (existsb isUpper pw), (existsb isLower pw),
      (existsb isDigit pw),
      (existsb (fun c => negb (isUpper c || isLower c || isDigit c)) pw);
      lia.
  - intro Hne. destruct pw as [|c pw]; [contradiction|]. simpl.
    destruct (isUpper c), (isLower c), (isDigit c); simpl;
    repeat match goal with
           | |- context [if ?b then _ else _] => destruct b
           end; lia.
Qed.

(** X19.  The score of [checkPasswordStrength] is between 0 and 5 and at least 1
    for a password that is not empty; a score of 3 or more needs two of
    the four character classes; the score is 5 exactly for eight code
    units or more with all four classes; and the feedback is empty exactly
    when the score is at least 3 and the length at least 8. *)
Theorem strength_score_facts :
  forall (pw : jsstring) (p : Page),
  let s := score (passwordStrength (checkPasswordStrength pw p)) in
  0 <= s <= 5 /\
  (pw <> [] -> 1 <= s) /\
  (3 <= s -> 2 <= classesUsed pw) /\
  (s = 5 <-> 8 <= str_length pw /\ classesUsed pw = 4) /\
  (feedback (passwordStrength (checkPasswordStrength pw p)) = [] <->
   3 <= s /\ 8 <= str_length pw).
Proof.
  intros pw p s. subst s. rewrite checkPasswordStrength_score.
  destruct (classesUsed_bounds pw) as [Hb Hne].
  split; [destruct (8 <=? str_length pw); lia|].
  split; [intro H; specialize (Hne H); destruct (8 <=? str_length pw); lia|].
  split; [destruct (8 <=? str_length pw); lia|].
  split.
  - destruct (8 <=? str_length pw) eqn:E;
      [apply Z.leb_le in E | apply Z.leb_gt in E]; lia.
  - unfold checkPasswordStrength. cbn [passwordStrength setPasswordStrength feedback].
    fold (classesUsed pw).
    match goal with
    | |- context [match (?sc <? 3) with _ => _ end] =>
        replace sc with ((if 8 <=? str_length pw then 1 else 0) + classesUsed pw)
    end.
    2:{ unfold classesUsed.
        destruct (8 <=? str_length pw), (existsb isUpper pw),
          (existsb isLower pw), (existsb isDigit pw),
          (existsb (fun c => negb (isUpper c || isLower c || isDigit c)) pw);
          reflexivity. }
    destruct (8 <=? str_length pw) eqn:E;
      [apply Z.leb_le in E | apply Z.leb_gt in E];
    destruct (_ <? 3) eqn:E3;
      [apply Z.ltb_lt in E3 | apply Z.ltb_ge in E3
      |apply Z.ltb_lt in E3 | apply Z.ltb_ge in E3];
    destruct (str_length pw <? 8) eqn:E8;
      (apply Z.ltb_lt in E8 || apply Z.ltb_ge in E8);
    try lia; split; intro H; try discriminate H; try lia; try reflexivity.
Qed.

Lemma strength_score_facts_witness :
  1 <= score (passwordStrength
                (checkPasswordStrength (lit "a") initialPage)).
Proof.
  refine (proj1 (proj2 (@strength_score_facts (lit "a") initialPage)) _).
  discriminate.
Defined.

Lemma handleChange_cells (name : Field) (value : jsstring) (p : Page) :
  formData (handleChange name value p) = setField name value (formData p) /\
  passwordStrength (handleChange name value p) = passwordStrength p /\
  isSubmitting (handleChange name value p) = isSubmitting p /\
  trace (handleChange name value p) = trace p.
Proof.
  unfold handleChange.
  destruct (getError name (errors p)) as [[|c m]|]; repeat split.
Qed.

Lemma handleSubmit_cells (reply : Reply) (p : Page) :
  formData (handleSubmit reply p) = formData p /\
  passwordStrength (handleSubmit reply p) = passwordStrength p.
Proof.
  unfold handleSubmit.
  destruct (validateForm p) as [newErrors ok].
  destruct ok, (isSubmitting p), reply; repeat split.
Qed.

(** X20.  On every reachable Signup page the stored score is between 0 and 5,
    so the strength bar is between 0 and 100 percent wide. *)
Theorem reachable_score_in_range :
  forall p : Page,
  reachable p ->
  0 <= score (passwordStrength p) <= 5.
Proof.
  induction 1 as [| name value p Hp IH | p Hp IH | p Hp IH | reply p Hp IH].
  - cbn. lia.
  - destruct (handleChange_cells name value p) as (_ & -> & _). exact IH.
  - unfold strengthTimer.
    destruct (truthy (password (formData p))); [|exact IH].
    rewrite checkPasswordStrength_score.
    destruct (classesUsed_bounds (password (formData p))) as [Hb _].
    destruct (8 <=? str_length (password (formData p))); lia.
  - exact IH.
  - destruct (handleSubmit_cells reply p) as (_ & ->). exact IH.
Qed.

Lemma reachable_score_in_range_witness :
  0 <= score (passwordStrength
                (strengthTimer
                   (handleChange Password (lit "Abcdef1!") initialPage)))
    <= 5.
Proof.
  apply (@reachable_score_in_range
           (strengthTimer
              (handleChange Password (lit "Abcdef1!") initialPage))).
  apply reach_timer. apply reach_change. apply reach_init.
Defined.

(** X21.  [validateForm] of the Signup page judges the strength by the score
    stored by the timer, not by the password in the form: replacing a
    password that is not empty by another one leaves the verdict as it
    was, and a submission made before the timer fires sends the new
    password. *)
Theorem verdict_uses_stored_score :
  forall (pw : jsstring) (reply : Reply) (p : Page),
  password (formData p) <> [] ->
  pw <> [] ->
  snd (validateForm (handleChange Password pw p)) = snd (validateForm p) /\
  (snd (validateForm p) = true ->
   isSubmitting p = false ->
   In (CallSignup (firstName (formData p)) (lastName (formData p))
         (email (formData p)) pw (phone (formData p)))
      (trace (handleSubmit reply (handleChange Password pw p)))).
Proof.
  intros pw reply p Hold Hnew.
  destruct (handleChange_cells Password pw p) as (Hf & Hs & Hsub & Htr).
  assert (Hv : snd (validateForm (handleChange Password pw p))
               = snd (validateForm p)).
  { unfold validateForm. cbn zeta. rewrite Hf, Hs.
    cbn [snd setField firstName lastName email password phone].
    destruct pw as [|c pw]; [contradiction|].
    destruct (password (formData p)) as [|d old]; [contradiction|].
    reflexivity. }
  split; [exact Hv|].
  intros Hok Hidle.
  rewrite signup_handleSubmit_trace, Hv, Hok, Hsub, Hidle.
  cbn [negb orb]. cbv zeta. rewrite Hf.
  cbn [setField firstName lastName email password phone].
  apply in_or_app. left. apply in_or_app. right. left. reflexivity.
Qed.

Lemma verdict_uses_stored_score_witness :
  snd (validateForm
         (handleChange Password (lit "a")
            (strengthTimer
               (handleChange Password (lit "Abcdef1!") initialPage))))
  = snd (validateForm
           (strengthTimer
              (handleChange Password (lit "Abcdef1!") initialPage))).
Proof.
  refine (proj1 (@verdict_uses_stored_score (lit "a") Resolved
            (strengthTimer
               (handleChange Password (lit "Abcdef1!") initialPage)) _ _)).
  - discriminate.
  - discriminate.
Defined.

Lemma count_app {A} (f : A -> bool) (l1 l2 : list A) :
  List.length (filter f (l1 ++ l2)) =
  (List.length (filter f l1) + List.length (filter f l2))%nat.
Proof.
  rewrite filter_app, length_app. reflexivity.
Qed.

(** X22.  Every call of [signup] in the trace of a reachable page carries names
    and a telephone number that are not blank, an address that matches
    [emailRegex], a password that is not empty and a telephone number that
    matches [phoneRegex]; and there are never more navigations than
    calls. *)
Theorem signup_trace_is_well_formed :
  forall p : Page,
  reachable p ->
  Forall wellFormed (trace p) /\
  (List.length (filter isNavigate (trace p))
   <= List.length (filter isCall (trace p)))%nat.
Proof.
  induction 1 as [| name value p Hp IH | p Hp IH | p Hp IH | reply p Hp IH].
  - split; [constructor | cbn; lia].
  - destruct (handleChange_cells name value p) as (_ & _ & _ & ->). exact IH.
  - unfold strengthTimer.
    destruct (truthy (password (formData p))); exact IH.
  - exact IH.
  - rewrite signup_handleSubmit_trace.
    destruct (negb (snd (validateForm p)) || isSubmitting p) eqn:E;
      [exact IH|].
    apply orb_false_iff in E. destruct E as [E _].
    apply negb_false_iff, signup_validateForm_ok in E.
    destruct E as (H1 & H2 & H3 & H4 & H5 & H6 & H7 & H8).
    destruct IH as [IHw IHc]. cbv zeta. split.
    + apply Forall_app. split.
      * apply Forall_app. split; [exact IHw|].
        constructor; [|constructor]. cbn. repeat split; assumption.
      * destruct reply; repeat constructor.
    + rewrite !count_app. destruct reply; cbn; lia.
Qed.

Lemma signup_trace_is_well_formed_witness :
  Forall wellFormed
    (trace
       (handleSubmit Resolved
          (strengthTimer
             (handleChange Phone (lit "+91 555 0100")
                (handleChange Password (lit "Abcdef1!")
                   (handleChange Email (lit "a@b.co")
                      (handleChange LastName (lit "Rao")
                         (handleChange FirstName (lit "Asha")
                            initialPage)))))))).
Proof.
  refine (proj1 (@signup_trace_is_well_formed _ _)).
  apply reach_submit. apply reach_timer.
  repeat apply reach_change. apply reach_init.
Defined.

End SignupMore.
